(** * VoiceRecorder: a shallow embedding of src/component/VoiceRecorder.tsx

    The component is a React function component.  Its logic lives in
    closures over one render's scope (props and state as that render saw
    them), in [useRef] cells shared by every render, and in objects of the
    host platform (MediaRecorder, MediaStream, timers, object URLs).

    The embedding keeps these three layers apart:
    - [Scope] is what a closure created in a render captures;
    - [Hooks] and [Refs] are the component's [useState] and [useRef] cells;
    - [Host] is the platform: recorders, streams, intervals, object URLs and
      the [getUserMedia] promises not yet settled.

    Statements that run in sequence are written in a state monad with
    exceptions ([M]), so [try]/[catch] reads as in the source.

    Left out: what is written to the console, and the [AudioContext] the
    component creates and closes but never uses.  What the components
    return is kept as a tree of elements.  Times are integer milliseconds,
    durations integer seconds.  The caller's [onDataRecorded] is taken to
    return normally. *)

From Stdlib Require Import ZArith QArith Qround Lia List String.
From stdpp Require Import base list strings pretty.

Open Scope Z_scope.

(* ================================================================= *)
(** ** Values of the host platform *)

(** A [Blob]: its bytes and its [type]. *)
Record Blob := {
  blobBytes : list Byte.byte;
  blobType : string;
}.

(** [blob.size]. *)
Definition blobSize (b : Blob) : Z := Z.of_nat (length (blobBytes b)).

(** [new Blob()]. *)
Definition emptyBlob : Blob := {| blobBytes := []; blobType := "" |}.

(** [new Blob(parts, { type })]: the parts' bytes, one after the other. *)
Definition newBlob (parts : list Blob) (type : string) : Blob :=
  {| blobBytes := concat (map blobBytes parts); blobType := type |}.

(** [Math.round] on a rational: the nearest integer, a tie going up. *)
Definition Math_round (x : Q) : Z := Qfloor (Qplus x (1 # 2)).

(** [Math.floor] on a rational. *)
Definition Math_floor (x : Q) : Z := Qfloor x.

(** A thrown value; the handlers only read its [message]. *)
Record Exn := { message : string }.

(** The platform's capabilities, as the component queries them. *)
Class Platform := {
  (** [MediaRecorder.isTypeSupported] *)
  isTypeSupported : string → bool;
  (** [navigator.mediaDevices && navigator.mediaDevices.getUserMedia] *)
  hasMediaDevices : bool;
}.

(** Truthiness of a JS string and of a JS number. *)
Definition truthyString (s : string) : bool := negb (String.eqb s "").
Definition truthyNumber (n : Z) : bool := negb (n =? 0).

(** [a || b] on strings. *)
Definition orElse (a b : string) : string := if truthyString a then a else b.

(* ================================================================= *)
(** ** Props and the compression table *)

(** The TypeScript type of [compressionLevel]. *)
Inductive CompressionLevel := none | low | medium | high.

(** The string a level stands for. *)
Definition levelName (l : CompressionLevel) : string :=
  match l with
  | none => "none"
  | low => "low"
  | medium => "medium"
  | high => "high"
  end.

(** [VoiceRecorderProps].  Every prop is optional; [compressionLevel] is
    kept as the raw property key, so that a caller outside the TypeScript
    type can be expressed.  The callback itself belongs to the caller: only
    whether one was supplied matters here, its invocations are logged in
    [delivered]. *)
Record VoiceRecorderProps := {
  onDataRecorded : bool;
  duration : option Z;
  compressionLevel : option string;
}.

(** An entry of [compressionSettings].  A field read on a JS object may
    give [undefined], hence the options. *)
Record Setting := {
  mimeType : option string;
  audioBitsPerSecond : option Z;
}.

(** The object literal [compressionSettings], own properties in order. *)
Definition compressionSettings : list (string * Setting) :=
  [ ("none",   {| mimeType := Some "audio/wav";  audioBitsPerSecond := None |});
    ("low",    {| mimeType := Some "audio/webm"; audioBitsPerSecond := Some 96000 |});
    ("medium", {| mimeType := Some "audio/webm"; audioBitsPerSecond := Some 64000 |});
    ("high",   {| mimeType := Some "audio/webm"; audioBitsPerSecond := Some 32000 |}) ].

(** Property names every object literal inherits from [Object.prototype].
    Reading one of them gives an object that has neither [mimeType] nor
    [audioBitsPerSecond]. *)
Definition objectPrototypeKeys : list string :=
  [ "constructor"; "__proto__"; "hasOwnProperty"; "isPrototypeOf";
    "propertyIsEnumerable"; "toLocaleString"; "toString"; "valueOf";
    "__defineGetter__"; "__defineSetter__"; "__lookupGetter__";
    "__lookupSetter__" ].

Fixpoint ownProperty (key : string) (obj : list (string * Setting)) : option Setting :=
  match obj with
  | [] => None
  | (k, v) :: rest => if String.eqb key k then Some v else ownProperty key rest
  end.

(** [compressionSettings[key]]: [None] is [undefined]. *)
Definition settingOf (key : string) : option Setting :=
  match ownProperty key compressionSettings with
  | Some s => Some s
  | None =>
      if existsb (String.eqb key) objectPrototypeKeys
      then Some {| mimeType := None; audioBitsPerSecond := None |}
      else None
  end.

(** The fallback list of [getSupportedMimeType]. *)
Definition options : list string :=
  [ "audio/webm"; "audio/ogg"; "audio/mp4"; "audio/wav" ].

(** The [for] loop over [options] and the [return ''] after it. *)
Fixpoint firstSupported `{Platform} (types : list string) : string :=
  match types with
  | [] => ""
  | type :: rest => if isTypeSupported type then type else firstSupported rest
  end.

(** The body of [getSupportedMimeType] once [setting.mimeType] is read. *)
Definition supportedMimeTypeFor `{Platform} (preferred : option string) : string :=
  match preferred with
  | Some m =>
      if truthyString m && isTypeSupported m then m else firstSupported options
  | None => firstSupported options
  end.

(** The resolver as the specification words it: the preferred format when
    supported, else the first supported entry of the list, else [""]. *)
Definition resolverSpec `{Platform} (preferred : string) : string :=
  if isTypeSupported preferred then preferred
  else match find isTypeSupported options with
       | Some t => t
       | None => ""
       end.

(** The outcome of a call: a value, or a thrown exception. *)
Inductive Completion (A : Type) :=
| Normal (a : A)
| Throw (e : Exn).
Arguments Normal {A} a.
Arguments Throw {A} e.

(** Reading a property of [undefined] throws a [TypeError]; the message is
    worded as V8 words it. *)
Definition typeErrorUndefined (prop : string) : Exn :=
  {| message := "Cannot read properties of undefined (reading '" ++ prop ++ "')" |}.

(** [getSupportedMimeType], closed over [compressionLevel]. *)
Definition getSupportedMimeType `{Platform} (compressionLevel : string) : Completion string :=
  match settingOf compressionLevel with
  | None => Throw (typeErrorUndefined "mimeType")
  | Some setting => Normal (supportedMimeTypeFor (mimeType setting))
  end.

(** The argument of [onDataRecorded]. *)
Record Artifact := {
  art_blob : Blob;
  art_url : string;
  art_type : string;
  art_isRecording : bool;
  art_size : option Z;
}.

(** The artifact [startRecording] hands over before it asks for the device. *)
Definition provisional : Artifact :=
  {| art_blob := emptyBlob;
     art_url := "";
     art_type := "audio/wav";
     art_isRecording := true;
     art_size := Some 0 |}.

(** [Math.round(audioBlob.size / 1024)], the size in KB. *)
Definition fileSizeKB (audioBlob : Blob) : Z :=
  Math_round (Qdiv (inject_Z (blobSize audioBlob)) (inject_Z 1024)).

(* ================================================================= *)
(** ** The component's cells and the host's objects *)

(** What a closure created during a render captures: the state and the
    props (defaults applied) as that render saw them. *)
Record Scope := {
  sc_isRecording : bool;
  sc_duration : Z;
  sc_compressionLevel : string;
  sc_onDataRecorded : bool;
}.

(** The [useState] cells. *)
Record Hooks := {
  isRecording : bool;
  remainingTime : Z;
  audioBlob : option Blob;
  error : option string;
  isSupported : bool;
}.

(** The [useRef] cells.  Recorders, streams and timers are named by their
    index in the host's tables. *)
Record Refs := {
  mediaRecorderRef : option nat;
  audioChunksRef : list Blob;
  streamRef : option nat;
  timerRef : option nat;
  startTimeRef : option Z;
}.

(** [MediaRecorderOptions]. *)
Record MediaRecorderOptions := {
  opt_mimeType : string;
  opt_audioBitsPerSecond : option Z;
}.

(** A recorder is [recording] after [start], and [stopping] once [stop] was
    called and its last [dataavailable] and its [stop] event are still to
    come; otherwise it is [inactive]. *)
Inductive RecorderState := inactive | recording | stopping.

(** What [ondataavailable] and [onstop] capture: the scope of the render
    that called [startRecording], and its local [mimeType]. *)
Record Handlers := {
  h_scope : Scope;
  h_mimeType : string;
}.

Record MediaRecorder := {
  mr_state : RecorderState;
  mr_stream : nat;
  mr_options : MediaRecorderOptions;
  mr_handlers : option Handlers;
}.

(** The platform's side.  [streams] holds, per stream handed out, whether
    its tracks are still live; [intervals] the running intervals, each with
    its period in milliseconds and the scope its callback closes over;
    [pendingGetUserMedia] the scopes of the [startRecording] calls suspended
    at their [await]. *)
Record Host := {
  recorders : list MediaRecorder;
  streams : list bool;
  intervals : list (nat * (Z * Scope));
  nextTimer : nat;
  objectURLs : list Blob;
  pendingGetUserMedia : list Scope;
}.

Record World := {
  props : VoiceRecorderProps;
  hooks : Hooks;
  refs : Refs;
  host : Host;
  (** the arguments of the calls to [onDataRecorded], oldest first *)
  delivered : list Artifact;
}.

(** *** Field updates *)

Definition withHooks (f : Hooks → Hooks) (w : World) : World :=
  {| props := props w; hooks := f (hooks w); refs := refs w; host := host w;
     delivered := delivered w |}.
Definition withRefs (f : Refs → Refs) (w : World) : World :=
  {| props := props w; hooks := hooks w; refs := f (refs w); host := host w;
     delivered := delivered w |}.
Definition withHost (f : Host → Host) (w : World) : World :=
  {| props := props w; hooks := hooks w; refs := refs w; host := f (host w);
     delivered := delivered w |}.
Definition withProps (p : VoiceRecorderProps) (w : World) : World :=
  {| props := p; hooks := hooks w; refs := refs w; host := host w;
     delivered := delivered w |}.
Definition withDelivered (f : list Artifact → list Artifact) (w : World) : World :=
  {| props := props w; hooks := hooks w; refs := refs w; host := host w;
     delivered := f (delivered w) |}.

Definition hooks_isRecording (v : bool) (h : Hooks) : Hooks :=
  {| isRecording := v; remainingTime := remainingTime h; audioBlob := audioBlob h;
     error := error h; isSupported := isSupported h |}.
Definition hooks_remainingTime (v : Z) (h : Hooks) : Hooks :=
  {| isRecording := isRecording h; remainingTime := v; audioBlob := audioBlob h;
     error := error h; isSupported := isSupported h |}.
Definition hooks_audioBlob (v : option Blob) (h : Hooks) : Hooks :=
  {| isRecording := isRecording h; remainingTime := remainingTime h; audioBlob := v;
     error := error h; isSupported := isSupported h |}.
Definition hooks_error (v : option string) (h : Hooks) : Hooks :=
  {| isRecording := isRecording h; remainingTime := remainingTime h;
     audioBlob := audioBlob h; error := v; isSupported := isSupported h |}.
Definition hooks_isSupported (v : bool) (h : Hooks) : Hooks :=
  {| isRecording := isRecording h; remainingTime := remainingTime h;
     audioBlob := audioBlob h; error := error h; isSupported := v |}.

Definition refs_mediaRecorder (v : option nat) (r : Refs) : Refs :=
  {| mediaRecorderRef := v; audioChunksRef := audioChunksRef r;
     streamRef := streamRef r; timerRef := timerRef r; startTimeRef := startTimeRef r |}.
Definition refs_audioChunks (v : list Blob) (r : Refs) : Refs :=
  {| mediaRecorderRef := mediaRecorderRef r; audioChunksRef := v;
     streamRef := streamRef r; timerRef := timerRef r; startTimeRef := startTimeRef r |}.
Definition refs_stream (v : option nat) (r : Refs) : Refs :=
  {| mediaRecorderRef := mediaRecorderRef r; audioChunksRef := audioChunksRef r;
     streamRef := v; timerRef := timerRef r; startTimeRef := startTimeRef r |}.
Definition refs_timer (v : option nat) (r : Refs) : Refs :=
  {| mediaRecorderRef := mediaRecorderRef r; audioChunksRef := audioChunksRef r;
     streamRef := streamRef r; timerRef := v; startTimeRef := startTimeRef r |}.
Definition refs_startTime (v : option Z) (r : Refs) : Refs :=
  {| mediaRecorderRef := mediaRecorderRef r; audioChunksRef := audioChunksRef r;
     streamRef := streamRef r; timerRef := timerRef r; startTimeRef := v |}.

Definition host_recorders (f : list MediaRecorder → list MediaRecorder) (h : Host) : Host :=
  {| recorders := f (recorders h); streams := streams h; intervals := intervals h;
     nextTimer := nextTimer h; objectURLs := objectURLs h;
     pendingGetUserMedia := pendingGetUserMedia h |}.
Definition host_streams (f : list bool → list bool) (h : Host) : Host :=
  {| recorders := recorders h; streams := f (streams h); intervals := intervals h;
     nextTimer := nextTimer h; objectURLs := objectURLs h;
     pendingGetUserMedia := pendingGetUserMedia h |}.
Definition host_intervals (f : list (nat * (Z * Scope)) → list (nat * (Z * Scope)))
    (h : Host) : Host :=
  {| recorders := recorders h; streams := streams h; intervals := f (intervals h);
     nextTimer := nextTimer h; objectURLs := objectURLs h;
     pendingGetUserMedia := pendingGetUserMedia h |}.
Definition host_nextTimer (v : nat) (h : Host) : Host :=
  {| recorders := recorders h; streams := streams h; intervals := intervals h;
     nextTimer := v; objectURLs := objectURLs h;
     pendingGetUserMedia := pendingGetUserMedia h |}.
Definition host_objectURLs (f : list Blob → list Blob) (h : Host) : Host :=
  {| recorders := recorders h; streams := streams h; intervals := intervals h;
     nextTimer := nextTimer h; objectURLs := f (objectURLs h);
     pendingGetUserMedia := pendingGetUserMedia h |}.
Definition host_pending (f : list Scope → list Scope) (h : Host) : Host :=
  {| recorders := recorders h; streams := streams h; intervals := intervals h;
     nextTimer := nextTimer h; objectURLs := objectURLs h;
     pendingGetUserMedia := f (pendingGetUserMedia h) |}.

Definition mr_withState (v : RecorderState) (r : MediaRecorder) : MediaRecorder :=
  {| mr_state := v; mr_stream := mr_stream r; mr_options := mr_options r;
     mr_handlers := mr_handlers r |}.
Definition mr_withHandlers (v : option Handlers) (r : MediaRecorder) : MediaRecorder :=
  {| mr_state := mr_state r; mr_stream := mr_stream r; mr_options := mr_options r;
     mr_handlers := v |}.

(* ================================================================= *)
(** ** Sequencing: state and exceptions *)

(** A statement: it changes the world and completes normally or throws.
    What was changed before a [throw] stays changed. *)
Definition M (A : Type) : Type := World → Completion A * World.

#[global] Instance M_ret : MRet M := λ A a w, (Normal a, w).
#[global] Instance M_bind : MBind M := λ A B f m w,
  match m w with
  | (Normal a, w') => f a w'
  | (Throw e, w') => (Throw e, w')
  end.

Definition throw {A} (e : Exn) : M A := λ w, (Throw e, w).
Definition modify (f : World → World) : M unit := λ w, (Normal tt, f w).
Definition gets {A} (f : World → A) : M A := λ w, (Normal (f w), w).
Definition liftC {A} (c : Completion A) : M A := λ w, (c, w).
Definition skip : M unit := mret tt.
Definition when (b : bool) (m : M unit) : M unit := if b then m else skip.

(** [try { body } catch (e) { handler e }] *)
Definition tryCatch (body : M unit) (handler : Exn → M unit) : M unit := λ w,
  match body w with
  | (Normal a, w') => (Normal a, w')
  | (Throw e, w') => handler e w'
  end.

(** The world a statement leaves behind. *)
Definition exec (m : M unit) (w : World) : World := (m w).2.

(** *** State setters, refs, the caller's callback *)

Definition setIsRecording (v : bool) : M unit := modify (withHooks (hooks_isRecording v)).
Definition setRemainingTime (v : Z) : M unit := modify (withHooks (hooks_remainingTime v)).
Definition setAudioBlob (v : option Blob) : M unit := modify (withHooks (hooks_audioBlob v)).
Definition setError (v : option string) : M unit := modify (withHooks (hooks_error v)).
Definition setIsSupported (v : bool) : M unit := modify (withHooks (hooks_isSupported v)).

(** [onDataRecorded(a)]: the caller receives [a]. *)
Definition callOnDataRecorded (a : Artifact) : M unit :=
  modify (withDelivered (λ l, l ++ [a])).

(** *** The host's operations *)

(** [URL.createObjectURL(blob)]: a fresh URL, registered for [blob]. *)
Definition createObjectURL (b : Blob) : M string := λ w,
  (Normal ("blob:" ++ pretty (length (objectURLs (host w))))%string,
   withHost (host_objectURLs (λ l, l ++ [b])) w).

(** [navigator.mediaDevices.getUserMedia(...)] up to the [await]: the call
    is suspended with its scope.  Without [mediaDevices] the property read
    throws. *)
Definition getUserMedia `{Platform} (sc : Scope) : M unit :=
  if hasMediaDevices
  then modify (withHost (host_pending (λ l, l ++ [sc])))
  else throw (typeErrorUndefined "getUserMedia").

(** The stream a granted request resolves to, its tracks live. *)
Definition newStream : M nat := λ w,
  (Normal (length (streams (host w))),
   withHost (host_streams (λ l, l ++ [true])) w).

(** What the host may do to a granted start: nothing, or throw from the
    [MediaRecorder] constructor, or throw from [start]. *)
Inductive EncoderFault :=
| noFault
| constructorThrows (e : Exn)
| startThrows (e : Exn).

(** [new MediaRecorder(stream, options)] *)
Definition newMediaRecorder (stream : nat) (o : MediaRecorderOptions)
    (fault : EncoderFault) : M nat :=
  match fault with
  | constructorThrows e => throw e
  | _ => λ w,
      (Normal (length (recorders (host w))),
       withHost (host_recorders (λ l, l ++
         [ {| mr_state := inactive; mr_stream := stream; mr_options := o;
              mr_handlers := None |} ])) w)
  end.

Definition updateRecorder (mr : nat) (f : MediaRecorder → MediaRecorder) : M unit :=
  modify (withHost (host_recorders (alter f mr))).

(** [mediaRecorder.start(1000)] *)
Definition mr_start (mr : nat) (fault : EncoderFault) : M unit :=
  match fault with
  | startThrows e => throw e
  | _ => updateRecorder mr (mr_withState recording)
  end.

(** [mediaRecorder.stop()]: a recorder that is not recording refuses. *)
Definition mr_stop (mr : nat) : M unit :=
  rs ← gets (λ w, recorders (host w)) ;
  match rs !! mr with
  | Some r =>
      match mr_state r with
      | recording => updateRecorder mr (mr_withState stopping)
      | _ => throw {| message := "InvalidStateError" |}
      end
  | None => throw {| message := "InvalidStateError" |}
  end.

(** [stream.getTracks().forEach((track) => track.stop())] *)
Definition stopTracks (stream : nat) : M unit :=
  modify (withHost (host_streams (λ l, <[stream := false]> l))).

Definition clearInterval (id : nat) : M unit :=
  modify (withHost (host_intervals (filter (λ p, p.1 ≠ id)))).

(** [window.setInterval(callback, ms)]; [sc] is what [callback] closes over. *)
Definition setInterval (sc : Scope) (ms : Z) : M nat := λ w,
  (Normal (nextTimer (host w)),
   withHost (λ h, host_nextTimer (S (nextTimer h))
                    (host_intervals (λ l, l ++ [(nextTimer h, (ms, sc))]) h)) w).

(** [if (timerRef.current) { clearInterval(timerRef.current); }] *)
Definition clearTimerRef : M unit :=
  t ← gets (λ w, timerRef (refs w)) ;
  match t with
  | Some id => clearInterval id
  | None => skip
  end.

(* ================================================================= *)
(** ** The component's functions *)

(** The scope of the render of world [w]: [isRecording] from its state
    cell, the props with their destructuring defaults. *)
Definition scopeOf (w : World) : Scope :=
  {| sc_isRecording := isRecording (hooks w);
     sc_duration := default 60 (duration (props w));
     sc_compressionLevel := default "medium" (compressionLevel (props w));
     sc_onDataRecorded := onDataRecorded (props w) |}.

(** [mediaRecorder.ondataavailable] *)
Definition ondataavailable (data : Blob) : M unit :=
  when (0 <? blobSize data)
    (modify (withRefs (λ r, refs_audioChunks (audioChunksRef r ++ [data]) r))).

(** [mediaRecorder.onstop] *)
Definition onstop (h : Handlers) : M unit :=
  chunks ← gets (λ w, audioChunksRef (refs w)) ;
  when (0 <? Z.of_nat (length chunks))
    (let audioBlob := newBlob chunks (orElse (h_mimeType h) "audio/wav") in
     setAudioBlob (Some audioBlob) ;;
     let fileSizeKB := fileSizeKB audioBlob in
     when (sc_onDataRecorded (h_scope h))
       (url ← createObjectURL audioBlob ;
        callOnDataRecorded
          {| art_blob := audioBlob;
             art_url := url;
             art_type := orElse (h_mimeType h) "audio/wav";
             art_isRecording := sc_isRecording (h_scope h);
             art_size := Some fileSizeKB |})) ;;
  stream ← gets (λ w, streamRef (refs w)) ;
  match stream with
  | Some s => stopTracks s
  | None => skip
  end.

(** [startRecording], from its [try] to the [await]. *)
Definition startRecording_request `{Platform} (sc : Scope) (now : Z) : M unit :=
  setError None ;;
  modify (withRefs (refs_audioChunks [])) ;;
  setAudioBlob None ;;
  when (sc_onDataRecorded sc) (callOnDataRecorded provisional) ;;
  modify (withRefs (refs_startTime (Some now))) ;;
  setRemainingTime (sc_duration sc) ;;
  getUserMedia sc.

(** [startRecording], from the [await] (resolved) to the end of its [try]. *)
Definition startRecording_resume `{Platform} (sc : Scope) (fault : EncoderFault) : M unit :=
  stream ← newStream ;
  modify (withRefs (refs_stream (Some stream))) ;;
  let setting := settingOf (sc_compressionLevel sc) in
  mimeType ← liftC (getSupportedMimeType (sc_compressionLevel sc)) ;
  bitrate ←
    (if negb (String.eqb (sc_compressionLevel sc) "none")
     then match setting with
          | Some s =>
              mret (match audioBitsPerSecond s with
                    | Some b => if truthyNumber b then Some b else None
                    | None => None
                    end)
          | None => throw (typeErrorUndefined "audioBitsPerSecond")
          end
     else mret None) ;
  let options := {| opt_mimeType := mimeType; opt_audioBitsPerSecond := bitrate |} in
  mediaRecorder ← newMediaRecorder stream options fault ;
  modify (withRefs (refs_mediaRecorder (Some mediaRecorder))) ;;
  updateRecorder mediaRecorder
    (mr_withHandlers (Some {| h_scope := sc; h_mimeType := mimeType |})) ;;
  mr_start mediaRecorder fault ;;
  setIsRecording true.

(** The [catch] of [startRecording]. *)
Definition startRecording_catch (e : Exn) : M unit :=
  setError (Some ("Could not access microphone: " ++ message e)%string) ;;
  setIsRecording false.

(** A call of [startRecording] runs to its [await]. *)
Definition startRecording `{Platform} (sc : Scope) (now : Z) : M unit :=
  tryCatch (startRecording_request sc now) startRecording_catch.

(** The device is granted: the suspended call goes on inside its [try]. *)
Definition startRecording_granted `{Platform} (sc : Scope) (fault : EncoderFault) : M unit :=
  tryCatch (startRecording_resume sc fault) startRecording_catch.

(** The device is denied: the [await] throws inside the [try]. *)
Definition startRecording_denied (e : Exn) : M unit :=
  tryCatch (throw e) startRecording_catch.

Definition stopRecording (sc : Scope) : M unit :=
  ref ← gets (λ w, mediaRecorderRef (refs w)) ;
  match ref with
  | Some mr =>
      when (sc_isRecording sc)
        (tryCatch (mr_stop mr) (λ _, skip) ;;
         setIsRecording false ;;
         clearTimerRef)
  | None => skip
  end.

Definition toggleRecording `{Platform} (sc : Scope) (now : Z) : M unit :=
  if sc_isRecording sc then stopRecording sc else startRecording sc now.

(** The callback of the countdown interval; [now] is [Date.now()]. *)
Definition countdown (sc : Scope) (now : Z) : M unit :=
  start ← gets (λ w, startTimeRef (refs w)) ;
  let elapsedTime :=
    Math_floor (match start with
                | Some t =>
                    if truthyNumber t
                    then Qdiv (inject_Z (now - t)) (inject_Z 1000)
                    else inject_Z 0
                | None => inject_Z 0
                end) in
  let newRemainingTime := Z.max 0 (sc_duration sc - elapsedTime) in
  setRemainingTime newRemainingTime ;;
  when (newRemainingTime <=? 0) (stopRecording sc).

(** *** Effects *)

Definition unsupportedMessage : string :=
  "Audio recording is not supported in this browser.".

(** [useEffect(..., [])]: the check for [mediaDevices].  It runs once,
    after the first render; the [AudioContext] it also makes is left out. *)
Definition supportEffect `{Platform} : M unit :=
  when (negb hasMediaDevices)
    (setIsSupported false ;; setError (Some unsupportedMessage)).

(** [useEffect(..., [duration, isRecording])]: reset the remaining time. *)
Definition resetEffect (sc : Scope) : M unit :=
  when (negb (sc_isRecording sc)) (setRemainingTime (sc_duration sc)).

(** [useEffect(..., [isRecording, duration])]: the countdown interval. *)
Definition timerEffect (sc : Scope) : M unit :=
  when (sc_isRecording sc)
    (id ← setInterval sc 100 ;
     modify (withRefs (refs_timer (Some id)))).

(** Its cleanup. *)
Definition timerCleanup : M unit := clearTimerRef.

(** Both effects depend on [isRecording] and [duration] only. *)
Definition sameDeps (a b : Scope) : bool :=
  Bool.eqb (sc_isRecording a) (sc_isRecording b) && (sc_duration a =? sc_duration b).

(** The render that follows an event: when a dependency differs from the
    render [before] the event, the cleanup runs, then the effects. *)
Definition commit (before : Scope) : M unit :=
  sc ← gets scopeOf ;
  when (negb (sameDeps before sc))
    (timerCleanup ;; resetEffect sc ;; timerEffect sc).

(* ================================================================= *)
(** ** Events *)

(** What can happen to a component once it has rendered for the first
    time.  Every event is followed by a render before the next one is
    handled.  [mountEffects] is React running the effects of the first
    render, which it does once, after that render is on the screen; until
    then the other events meet the component as [mount] leaves it. *)
Inductive Event :=
| click (now : Z)                                   (* the button; [now] is [Date.now()] *)
| deviceGranted (k : nat) (fault : EncoderFault)    (* the [k]-th pending [getUserMedia] resolves *)
| deviceDenied (k : nat) (e : Exn)                  (* ... or rejects with [e] *)
| dataAvailable (mr : nat) (data : Blob)            (* recorder [mr] fires [dataavailable] *)
| stopped (mr : nat)                                (* recorder [mr] fires [stop]: after [stop()], or when its tracks ended *)
| tick (timer : nat) (now : Z)                      (* interval [timer] fires *)
| rerender (p : VoiceRecorderProps)                 (* the parent passes new props *)
| mountEffects.                                     (* the effects of the first render run *)

Definition handle `{Platform} (ev : Event) : M unit :=
  match ev with
  | click now =>
      shown ← gets (λ w, isSupported (hooks w)) ;
      when shown (sc ← gets scopeOf ; toggleRecording sc now)
  | deviceGranted k fault =>
      pending ← gets (λ w, pendingGetUserMedia (host w)) ;
      match pending !! k with
      | Some sc =>
          modify (withHost (host_pending (delete k))) ;;
          startRecording_granted sc fault
      | None => skip
      end
  | deviceDenied k e =>
      pending ← gets (λ w, pendingGetUserMedia (host w)) ;
      match pending !! k with
      | Some sc =>
          modify (withHost (host_pending (delete k))) ;;
          startRecording_denied e
      | None => skip
      end
  | dataAvailable mr data =>
      rs ← gets (λ w, recorders (host w)) ;
      match rs !! mr with
      | Some r =>
          match mr_state r, mr_handlers r with
          | inactive, _ | _, None => skip
          | _, Some _ => ondataavailable data
          end
      | None => skip
      end
  | stopped mr =>
      rs ← gets (λ w, recorders (host w)) ;
      match rs !! mr with
      | Some r =>
          match mr_state r, mr_handlers r with
          | inactive, _ | _, None => skip
          | _, Some h =>
              updateRecorder mr (mr_withState inactive) ;;
              onstop h
          end
      | None => skip
      end
  | tick timer now =>
      running ← gets (λ w, intervals (host w)) ;
      match list_find (λ p, p.1 = timer) running with
      | Some (_, (_, (_, sc))) => countdown sc now
      | None => skip
      end
  | rerender p => modify (withProps p)
  | mountEffects => supportEffect
  end.

(** One event, then the render that follows it. *)
Definition step `{Platform} (ev : Event) (w : World) : World :=
  exec (handle ev ;; commit (scopeOf w)) w.

Definition run `{Platform} (evs : list Event) (w : World) : World :=
  foldl (λ w ev, step ev w) w evs.

(** The component after its first render, with the initial values of its
    [useState] and [useRef] cells: on every platform it starts out
    supported and shows the button.  The effects of that render have not
    run yet: they are the event [mountEffects].  Of these only the check
    for [mediaDevices] does anything: the reset effect writes the duration
    that is already there, and the timer effect does nothing while idle. *)
Definition mount `{Platform} (p : VoiceRecorderProps) : World :=
  {| props := p;
     hooks :=
       {| isRecording := false;
          remainingTime := default 60 (duration p);
          audioBlob := None;
          error := None;
          isSupported := true |};
     refs :=
       {| mediaRecorderRef := None; audioChunksRef := []; streamRef := None;
          timerRef := None; startTimeRef := None |};
     host :=
       {| recorders := []; streams := []; intervals := []; nextTimer := 1;
          objectURLs := []; pendingGetUserMedia := [] |};
     delivered := [] |}.

(** The worlds a mounted component can be in. *)
Inductive Reachable `{Platform} (p : VoiceRecorderProps) : World → Prop :=
| reach_mount : Reachable p (mount p)
| reach_step w ev : Reachable p w → Reachable p (step ev w).

(** *** Platforms and blobs to compute with *)

(** A browser that records WebM and MP4 but not WAV. *)
Definition webmPlatform : Platform :=
  {| isTypeSupported := λ t, String.eqb t "audio/webm" || String.eqb t "audio/mp4";
     hasMediaDevices := true |}.

(** A browser whose recorder supports none of the listed types. *)
Definition barePlatform : Platform :=
  {| isTypeSupported := λ _, false; hasMediaDevices := true |}.

Definition bytesOf (n : nat) : Blob :=
  {| blobBytes := repeat Byte.x2a n; blobType := "audio/webm" |}.

Definition defaultProps : VoiceRecorderProps :=
  {| onDataRecorded := true; duration := None; compressionLevel := None |}.

(** *** Predicates on worlds *)

(** What the [catch] of [startRecording] leaves: the message, and the
    component not recording. *)
Definition startFailed (e : Exn) (w : World) : Prop :=
  error (hooks w) = Some ("Could not access microphone: " ++ message e)%string ∧
  isRecording (hooks w) = false.

(** No device request is pending and no recorder is running or stopping. *)
Definition quiet (w : World) : Prop :=
  pendingGetUserMedia (host w) = [] ∧
  Forall (λ r, mr_state r = inactive) (recorders (host w)).

Definition isClick (ev : Event) : bool :=
  match ev with
  | click _ => true
  | _ => false
  end.

(** The handlers of a recorder close over a render in which [isRecording]
    was [false], and their [mimeType] is what [getSupportedMimeType]
    returned; a recorder without handlers has not been started. *)
Definition recorderOk `{Platform} (r : MediaRecorder) : Prop :=
  match mr_handlers r with
  | Some h =>
      sc_isRecording (h_scope h) = false ∧
      getSupportedMimeType (sc_compressionLevel (h_scope h)) = Normal (h_mimeType h)
  | None => mr_state r = inactive
  end.

(** What the closures kept by the host were created with: a suspended
    [startRecording] saw [isRecording] false, every recorder is
    [recorderOk], and once a recorder exists [streamRef] holds a stream. *)
Record ClosureInv `{Platform} (w : World) : Prop := {
  inv_pending :
    Forall (λ sc, sc_isRecording sc = false) (pendingGetUserMedia (host w));
  inv_recorders : Forall recorderOk (recorders (host w));
  inv_stream :
    recorders (host w) ≠ [] →
    ∃ s, streamRef (refs w) = Some s ∧ (s < length (streams (host w)))%nat;
}.

(** The countdown follows the recording flag: no interval while idle; while
    recording exactly one, of period 100 ms, held in [timerRef], whose
    callback closes over the current [duration]; and a recorder is held in
    [mediaRecorderRef]. *)
Record TimerInv (w : World) : Prop := {
  inv_idle : isRecording (hooks w) = false → intervals (host w) = [];
  inv_counting :
    isRecording (hooks w) = true →
    ∃ id sc, intervals (host w) = [(id, (100, sc))] ∧ timerRef (refs w) = Some id ∧
             sc_isRecording sc = true ∧ sc_duration sc = sc_duration (scopeOf w);
  inv_recorder :
    isRecording (hooks w) = true → is_Some (mediaRecorderRef (refs w));
}.

(** A [compressionLevel] left out and one given as ["medium"] are the same
    to the component: the props, an event and a world with the default
    written out. *)
Definition withDefaultLevel (p : VoiceRecorderProps) : VoiceRecorderProps :=
  {| onDataRecorded := onDataRecorded p;
     duration := duration p;
     compressionLevel := Some (default "medium" (compressionLevel p)) |}.

Definition eventWithDefaultLevel (ev : Event) : Event :=
  match ev with
  | rerender p => rerender (withDefaultLevel p)
  | _ => ev
  end.

Definition worldWithDefaultLevel (w : World) : World :=
  withProps (withDefaultLevel (props w)) w.

(** A capture session is a device request not yet settled, or a recorder
    that is recording or stopping. *)
Definition isActive (r : MediaRecorder) : bool :=
  match mr_state r with
  | inactive => false
  | _ => true
  end.

Definition sessions (w : World) : nat :=
  (length (pendingGetUserMedia (host w)) +
   length (List.filter isActive (recorders (host w))))%nat.

(** The worlds reached when the button is pressed only while recording (to
    stop) or while the world is quiet (to start). *)
Inductive Disciplined `{Platform} (p : VoiceRecorderProps) : World → Prop :=
| disc_mount : Disciplined p (mount p)
| disc_step w ev :
    Disciplined p w →
    (isClick ev = true → isRecording (hooks w) = true ∨ quiet w) →
    Disciplined p (step ev w).

(** Every active recorder runs on the stream held in [streamRef], and a
    recorder that is recording is the one held in [mediaRecorderRef]. *)
Definition ownsDevice (w : World) : Prop :=
  ∀ i r, recorders (host w) !! i = Some r → isActive r = true →
         streamRef (refs w) = Some (mr_stream r) ∧
         (mr_state r = recording → mediaRecorderRef (refs w) = Some i).

(* ================================================================= *)
(** ** The size formatter *)

(** A JS number, as far as a size divided by 1024 can be one. *)
Inductive Number :=
| finite (x : Q)
| infinity (negative : bool).

(** The double nearest to the integer [z ≥ 0], a tie going to the even
    significand; [None] from [2^1024 - 2^970] on, where it is [Infinity]. *)
Definition roundToDouble (z : Z) : option Z :=
  let e := Z.log2 z - 52 in
  if e <=? 0 then Some z
  else
    let q := z / 2 ^ e in
    let r := z mod 2 ^ e in
    let half := 2 ^ (e - 1) in
    let m := if (half <? r) || ((r =? half) && Z.odd q) then q + 1 else q in
    if 2 ^ 1024 <=? m * 2 ^ e then None else Some (m * 2 ^ e).

(** The number an integer size is: itself up to [2^53], beyond that the
    nearest double. *)
Definition Number_ofInteger (z : Z) : Number :=
  match roundToDouble (Z.abs z) with
  | Some m => finite (inject_Z (Z.sgn z * m))
  | None => infinity (z <? 0)
  end.

(** [x / 1024]: exact on the doubles above, a power of two only moves the
    exponent. *)
Definition Number_div1024 (x : Number) : Number :=
  match x with
  | finite q => finite (Qdiv q (inject_Z 1024))
  | infinity negative => infinity negative
  end.

Fixpoint dropZeros (rev_digits : list Ascii.ascii) : list Ascii.ascii :=
  match rev_digits with
  | c :: rest => if Ascii.eqb c (pretty_N_char 0) then dropZeros rest else rev_digits
  | [] => []
  end.

(** Of the two multiples of [10^(n-k)] around [x], those that read back as
    [x], the nearer one first (on a tie the one with the even digits). *)
Definition shortestAt (x n k : Z) : option Z :=
  let u := 10 ^ (n - k) in
  let v0 := x / u * u in
  let v1 := v0 + u in
  let ok v := match roundToDouble v with Some y => y =? x | None => false end in
  let lowerFirst := (x - v0 <? v1 - x) || ((x - v0 =? v1 - x) && Z.even (x / u)) in
  match ok v0, ok v1 with
  | true, true => Some (if lowerFirst then v0 else v1)
  | true, false => Some v0
  | false, true => Some v1
  | false, false => None
  end.

(** [Number::toString] of an integer double [x ≥ 10^21]: the fewest digits
    that read back as [x], in exponent notation. *)
Definition Number_toString_large (x : Z) : string :=
  let n := Z.of_nat (String.length (pretty (Z.to_N x))) in
  let v := default x (list_find is_Some ((λ k, shortestAt x n (Z.of_nat k)) <$> seq 1 17)
                        ≫= snd) in
  let all := list_ascii_of_string (pretty (Z.to_N v)) in
  let digits := rev (dropZeros (rev all)) in
  let exponent := pretty (Nat.pred (length all)) in
  match digits with
  | [] => "0"
  | [d] => String d ("e+" +:+ exponent)
  | d :: more => String d ("." +:+ string_of_list_ascii more +:+ "e+" +:+ exponent)
  end.

(** [Number.prototype.toFixed(2)].  A number that is not finite prints as
    [Number::toString] prints it.  Otherwise the sign is split off; from
    [10^21] on the result is [Number::toString]'s; below, [n] is the integer
    for which [n / 100] is nearest to [x] (the larger one on a tie), its
    decimal digits are padded with zeros to three and the point is put
    before the last two. *)
Definition toFixed2 (x : Number) : string :=
  match x with
  | infinity negative => if negative then "-Infinity" else "Infinity"
  | finite x =>
      let negative := negb (Qle_bool (inject_Z 0) x) in
      let x := if negative then Qopp x else x in
      let m :=
        if Qle_bool (inject_Z (10 ^ 21)) x then Number_toString_large (Qfloor x)
        else
          let n := Z.to_N (Qfloor (Qplus (Qmult x (inject_Z 100)) (1 # 2))) in
          let m := pretty n in
          let k := String.length m in
          let m := if (k <=? 2)%nat
                   then String.concat "" (replicate (3 - k) "0") +:+ m else m in
          let k := String.length m in
          let a := substring 0 (k - 2) m in
          let b := substring (k - 2) 2 m in
          a +:+ "." +:+ b in
      (if negative then "-" else "") +:+ m
  end.

(** [AudioSize]: [((audioData.size ?? 0) / 1024).toFixed(2)]; [None] is a
    [size] of [null].  Sizes are integers, as a [Blob]'s are. *)
Definition AudioSize (size : option Z) : string :=
  toFixed2 (Number_div1024 (Number_ofInteger (default 0 size))).

(* ================================================================= *)
(** ** What the components render *)

(** The value of a prop in JSX. *)
Inductive PropValue :=
| pString (s : string)
| pNumber (n : Z)
| pBool (b : bool)
| pHandler (name : string).

(** What a component returns: an element with its props and children, a
    string, a fragment, or one of the values React renders as nothing. *)
#[warnings="-register-all"]
Inductive ReactNode :=
| element (tag : string) (attrs : list (string * PropValue)) (children : list ReactNode)
| text (s : string)
| fragment (children : list ReactNode)
| jsFalse
| jsNull.

(** What [VoiceRecorder] returns for the world [w]. *)
Definition render (w : World) : ReactNode :=
  if negb (isSupported (hooks w))
  then
    element "div" [("className", pString "unsupported-message")]
      [ text (match error (hooks w) with
              | Some e => orElse e unsupportedMessage
              | None => unsupportedMessage
              end) ]
  else
    element "div" [("className", pString "voice-recorder-container")]
      [ element "button"
          [ ("onClick", pHandler "toggleRecording");
            ("className",
             pString ("record-button " +:+
                      (if isRecording (hooks w)
                       then "record-button-recording"
                       else "record-button-idle"))) ]
          [ if isRecording (hooks w)
            then fragment [ element "Square" [("size", pNumber 20)] [];
                            text "Stop Recording" ]
            else fragment [ element "Mic" [("size", pNumber 20)] [];
                            text "Start Recording" ] ] ].

(** [PreviewVoiceNote]; [None] is an [audioUrl] of [null].  [a && b] is [a]
    itself when [a] is falsy. *)
Definition PreviewVoiceNote (audioUrl : option string) : ReactNode :=
  element "div" [("className", pString "audio-container")]
    [ match audioUrl with
      | None => jsNull
      | Some url =>
          if truthyString url
          then fragment
                 [ element "audio"
                     [ ("controls", pBool true); ("src", pString url);
                       ("className", pString "audio-player") ] [] ]
          else text url
      end ].

(** [RecordingStatus] *)
Definition RecordingStatus (isRecording : bool) : ReactNode :=
  if isRecording
  then element "div" [("className", pString "recording-indicator")]
         [ element "span" [("className", pString "recording-dot")] [];
           text "Recording in progress..." ]
  else jsFalse.

(* ================================================================= *)
(** ** Unmounting *)

(** The cleanup of the last effect, without the [AudioContext]. *)
Definition releaseEffectCleanup : M unit :=
  stream ← gets (λ w, streamRef (refs w)) ;
  match stream with
  | Some s => stopTracks s
  | None => skip
  end.

(** At unmount React runs the cleanups of the effects, in their order: the
    countdown's, then the last effect's. *)
Definition unmount (w : World) : World :=
  exec (timerCleanup ;; releaseEffectCleanup) w.

(* ================================================================= *)
(** ** The example application of the README *)

(** The example keeps in its [audioData] state what [handleRecordedData]
    was last called with: the last artifact handed over, [None] before the
    first. *)
Definition audioDataOf (w : World) : option Artifact := last (delivered w).

(** [audioData.size != 0]; a size left out is [undefined], which is not
    equal to [0]. *)
Definition sizeIsNotZero (a : Artifact) : bool :=
  match art_size a with
  | Some n => negb (n =? 0)
  | None => true
  end.

(** What [App] returns, for its [audioData] and the world of the recorder
    it holds. *)
Definition App (audioData : option Artifact) (w : World) : ReactNode :=
  element "div" [("className", pString "App")]
    [ element "h1" [] [text "My Voice Recording App"];
      render w;
      RecordingStatus (default false (art_isRecording <$> audioData));
      match audioData with
      | Some a => PreviewVoiceNote (Some (art_url a))
      | None => jsNull
      end;
      match audioData with
      | Some a =>
          element "div" []
            [ if sizeIsNotZero a
              then element "p" []
                     [ text "Size: ";
                       text (AudioSize (Some (blobSize (art_blob a)))) ]
              else jsFalse ]
      | None => jsNull
      end ].

(* ================================================================= *)
(** ** More predicates on worlds *)

(** The artifacts of finished recordings among those handed over. *)
Definition finalArtifacts (l : list Artifact) : list Artifact :=
  List.filter (λ a, negb (art_isRecording a)) l.

(** The provisional artifacts among those handed over. *)
Definition provisionalArtifacts (l : list Artifact) : list Artifact :=
  List.filter art_isRecording l.

(** The bitrate the table gives a level. *)
Definition levelBitrate (l : CompressionLevel) : option Z :=
  match l with
  | none => None
  | low => Some 96000
  | medium => Some 64000
  | high => Some 32000
  end.

(** The container format the table gives a level. *)
Definition levelFormat (l : CompressionLevel) : string :=
  match l with
  | none => "audio/wav"
  | _ => "audio/webm"
  end.

(** A recorder was asked for the mime type its handlers use, and that type
    is one [getSupportedMimeType] returns. *)
Definition optionsOk `{Platform} (r : MediaRecorder) : Prop :=
  (∃ level, getSupportedMimeType level = Normal (opt_mimeType (mr_options r))) ∧
  (∀ h, mr_handlers r = Some h → h_mimeType h = opt_mimeType (mr_options r)).

(** A callback still owed: a pending start, or an active recorder, whose
    scope holds [onDataRecorded]. *)
Definition owesCallback (r : MediaRecorder) : bool :=
  isActive r &&
  match mr_handlers r with
  | Some h => sc_onDataRecorded (h_scope h)
  | None => false
  end.

Definition owed (w : World) : nat :=
  (length (List.filter sc_onDataRecorded (pendingGetUserMedia (host w))) +
   length (List.filter owesCallback (recorders (host w))))%nat.

(** A final artifact is well formed: its blob is not empty, its size is
    the blob's in KB, and its type is the blob's, is not empty, and is a
    format the platform supports or the default [audio/wav].  An artifact
    that says it is recording is the provisional one. *)
Definition artifactOk `{Platform} (a : Artifact) : Prop :=
  if art_isRecording a then a = provisional
  else blobBytes (art_blob a) ≠ [] ∧
       art_size a = Some (fileSizeKB (art_blob a)) ∧
       art_type a = blobType (art_blob a) ∧
       art_type a ≠ "" ∧
       (isTypeSupported (art_type a) = true ∨ art_type a = "audio/wav").

(** What was handed over and what was registered agree: the chunks kept
    are not empty, the final artifacts are, in order, the blobs that were
    given an object URL, and the [i]-th one carries the [i]-th URL. *)
Record DeliveredInv `{Platform} (w : World) : Prop := {
  inv_chunks : Forall (λ b, 0 < blobSize b) (audioChunksRef (refs w));
  inv_finals : art_blob <$> finalArtifacts (delivered w) = objectURLs (host w);
  inv_urls :
    art_url <$> finalArtifacts (delivered w) =
      (λ i : nat, "blob:" +:+ pretty i) <$> seq 0 (length (objectURLs (host w)));
  inv_wellformed : Forall artifactOk (delivered w);
}.

(* ================================================================= *)
(** * Properties *)

Arguments Math_floor : simpl never.
Arguments Math_round : simpl never.
Arguments fileSizeKB : simpl never.
Arguments newBlob : simpl never.
Arguments orElse : simpl never.

(** Symbolic execution of a statement: unfold the operations, then split
    on every scrutinee that is left. *)
Ltac unfold_m1 :=
  unfold toggleRecording, startRecording, startRecording_granted, startRecording_denied,
    startRecording_request, startRecording_resume, startRecording_catch,
    stopRecording, countdown, onstop, ondataavailable,
    clearTimerRef, clearInterval, setInterval, stopTracks, mr_stop, mr_start,
    updateRecorder, newMediaRecorder, newStream, getUserMedia, createObjectURL,
    callOnDataRecorded, setError, setAudioBlob, setRemainingTime, setIsRecording,
    setIsSupported, supportEffect,
    tryCatch, when, skip, liftC, gets, modify, throw, exec,
    mbind, M_bind, mret, M_ret in *.

Ltac unfold_m := unfold_m1; unfold_m1.

Ltac unfold_commit :=
  unfold commit, timerCleanup, timerEffect, resetEffect, sameDeps in *; unfold_m.

Ltac case_m :=
  repeat (cbn in *;
    match goal with
    | |- context [match ?x with _ => _ end] =>
        lazymatch x with
        | context [match _ with _ => _ end] => fail
        | _ => destruct x eqn:?
        end
    end).

(** ** Arithmetic of the host *)




(** ** The table and the resolver *)

Lemma firstSupported_find `{Platform} (types : list string) :
  firstSupported types =
    match find isTypeSupported types with
    | Some t => t
    | None => ""
    end.
Proof.
  induction types as [|t rest IH]; simpl; [reflexivity|].
  destruct (isTypeSupported t); [reflexivity | exact IH].
Qed.

Lemma truthyString_nonempty (s : string) : s ≠ "" → truthyString s = true.
Proof.
  intros Hs. unfold truthyString.
  destruct (String.eqb_spec s ""); [contradiction | reflexivity].
Qed.

Lemma supportedMimeTypeFor_spec `{Platform} (preferred : string) :
  preferred ≠ "" → supportedMimeTypeFor (Some preferred) = resolverSpec preferred.
Proof.
  intros Hs. unfold supportedMimeTypeFor, resolverSpec.
  rewrite (truthyString_nonempty _ Hs). cbn [andb].
  destruct (isTypeSupported preferred); [reflexivity|].
  apply firstSupported_find.
Qed.

(** C4: the table gives, for each of the four levels, the documented
    hint: [none] is WAV without a bitrate, [low], [medium] and [high] are
    WebM at 96000, 64000 and 32000 bits per second. *)
Theorem compressionSettings_hints :
  settingOf (levelName none) =
    Some {| mimeType := Some "audio/wav"; audioBitsPerSecond := None |} ∧
  settingOf (levelName low) =
    Some {| mimeType := Some "audio/webm"; audioBitsPerSecond := Some 96000 |} ∧
  settingOf (levelName medium) =
    Some {| mimeType := Some "audio/webm"; audioBitsPerSecond := Some 64000 |} ∧
  settingOf (levelName high) =
    Some {| mimeType := Some "audio/webm"; audioBitsPerSecond := Some 32000 |}.
Proof. repeat split. Qed.

(** C3: whatever the platform supports, the resolver returns the preferred
    format when it is supported, otherwise the first supported entry of
    [audio/webm; audio/ogg; audio/mp4; audio/wav], otherwise the empty
    string; and for each level of the table [getSupportedMimeType] returns
    that value for the level's format, without throwing. *)
Theorem getSupportedMimeType_resolves `{Platform} (preferred : string) :
  preferred ≠ "" →
  supportedMimeTypeFor (Some preferred) =
    (if isTypeSupported preferred then preferred
     else match find isTypeSupported
                  ["audio/webm"; "audio/ogg"; "audio/mp4"; "audio/wav"] with
          | Some t => t
          | None => ""
          end) ∧
  ∀ level : CompressionLevel, ∃ format,
    (settingOf (levelName level) ≫= mimeType) = Some format ∧
    getSupportedMimeType (levelName level) = Normal (resolverSpec format).
Proof.
  intros Hs. split; [exact (supportedMimeTypeFor_spec _ Hs)|].
  intros level.
  destruct level;
    [exists "audio/wav" | exists "audio/webm" | exists "audio/webm" | exists "audio/webm"];
    (split; [reflexivity|]);
    unfold getSupportedMimeType; simpl settingOf; cbv beta iota;
    f_equal; apply supportedMimeTypeFor_spec; discriminate.
Qed.

Lemma getSupportedMimeType_resolves_witness :
  "audio/ogg" ≠ "" ∧
  @supportedMimeTypeFor webmPlatform (Some "audio/ogg") = "audio/webm".
Proof.
  split; [discriminate|].
  exact (proj1 (@getSupportedMimeType_resolves webmPlatform "audio/ogg"
                  ltac:(discriminate))).
Defined.

(** ** Failure of a start *)

Lemma handle_normal `{Platform} (ev : Event) (w : World) :
  ∃ w', handle ev w = (Normal (), w').
Proof. destruct ev; unfold handle; unfold_m; case_m; cbn; eauto. Qed.

Lemma tryCatch_start_throws (body : M unit) (e : Exn) (w w1 : World) :
  body w = (Throw e, w1) →
  ∃ w', tryCatch body startRecording_catch w = (Normal (), w') ∧ startFailed e w' ∧
        delivered w' = delivered w1.
Proof.
  intros Hb. unfold tryCatch. rewrite Hb.
  eexists. split; [reflexivity|]. repeat split.
Qed.

(** The render after an event touches only the remaining time, the
    intervals and [timerRef]. *)
Lemma commit_frame (before : Scope) (w : World) :
  let w' := exec (commit before) w in
  props w' = props w ∧ delivered w' = delivered w ∧
  isRecording (hooks w') = isRecording (hooks w) ∧
  error (hooks w') = error (hooks w) ∧
  audioBlob (hooks w') = audioBlob (hooks w) ∧
  isSupported (hooks w') = isSupported (hooks w) ∧
  mediaRecorderRef (refs w') = mediaRecorderRef (refs w) ∧
  audioChunksRef (refs w') = audioChunksRef (refs w) ∧
  streamRef (refs w') = streamRef (refs w) ∧
  startTimeRef (refs w') = startTimeRef (refs w) ∧
  recorders (host w') = recorders (host w) ∧
  streams (host w') = streams (host w) ∧
  objectURLs (host w') = objectURLs (host w) ∧
  pendingGetUserMedia (host w') = pendingGetUserMedia (host w).
Proof. unfold_commit. case_m; cbn; repeat split; congruence. Qed.

(** With unchanged dependencies no effect runs. *)
Lemma commit_same (before : Scope) (w : World) :
  sc_isRecording before = isRecording (hooks w) →
  sc_duration before = default 60 (duration (props w)) →
  exec (commit before) w = w.
Proof.
  intros Hr Hd. unfold_commit. cbn. rewrite Hr, Hd, Z.eqb_refl.
  destruct (isRecording (hooks w)); reflexivity.
Qed.

Lemma commit_startFailed (before : Scope) (e : Exn) (w : World) :
  startFailed e w → startFailed e (exec (commit before) w).
Proof.
  unfold startFailed.
  destruct (commit_frame before w) as (_ & _ & -> & -> & _). auto.
Qed.

Lemma step_unfold `{Platform} (ev : Event) (w w1 : World) :
  handle ev w = (Normal (), w1) → step ev w = exec (commit (scopeOf w)) w1.
Proof.
  intros Hh. unfold step, exec at 1. unfold mbind, M_bind. rewrite Hh. reflexivity.
Qed.

(** C8: a start that fails stays inside the component.  A denied device, an
    exception after the grant and an exception before the request all end
    in the [catch]: the message is recorded and the component is not
    recording; and no event handler lets an exception escape. *)
Theorem start_failure_is_local `{Platform} (sc : Scope) (w : World) :
  (∀ k e, pendingGetUserMedia (host w) !! k = Some sc →
          startFailed e (step (deviceDenied k e) w)) ∧
  (∀ k fault e w1,
      pendingGetUserMedia (host w) !! k = Some sc →
      startRecording_resume sc fault (withHost (host_pending (delete k)) w) = (Throw e, w1) →
      startFailed e (step (deviceGranted k fault) w)) ∧
  (∀ now e w1,
      startRecording_request sc now w = (Throw e, w1) →
      ∃ w', startRecording sc now w = (Normal (), w') ∧ startFailed e w') ∧
  (∀ ev, ∃ w', handle ev w = (Normal (), w')).
Proof.
  split; [|split; [|split]].
  - intros k e Hk.
    erewrite step_unfold; [apply commit_startFailed|].
    2:{ unfold handle, gets, mbind, M_bind. rewrite Hk. reflexivity. }
    repeat split.
  - intros k fault e w1 Hk Hthrow.
    destruct (tryCatch_start_throws _ _ _ _ Hthrow) as (w' & Hrun & Hfailed & _).
    erewrite step_unfold; [apply commit_startFailed; exact Hfailed|].
    unfold handle, gets, mbind, M_bind. rewrite Hk.
    unfold startRecording_granted, modify. exact Hrun.
  - intros now e w1 Hthrow.
    destruct (tryCatch_start_throws _ _ _ _ Hthrow) as (w' & Hrun & Hfailed & _).
    exists w'. split; assumption.
  - intros ev. apply handle_normal.
Qed.

Lemma start_failure_is_local_witness :
  let w := @step webmPlatform (click 1000) (@mount webmPlatform defaultProps) in
  let denied := @step webmPlatform (deviceDenied 0 {| message := "Permission denied" |}) w in
  let broken := @step webmPlatform (deviceGranted 0 (constructorThrows {| message := "NotSupportedError" |})) w in
  pendingGetUserMedia (host w) !! 0%nat = Some (scopeOf (@mount webmPlatform defaultProps)) ∧
  error (hooks denied) = Some "Could not access microphone: Permission denied" ∧
  isRecording (hooks denied) = false ∧
  error (hooks broken) = Some "Could not access microphone: NotSupportedError" ∧
  isRecording (hooks broken) = false.
Proof.
  intros w denied broken.
  pose proof (@start_failure_is_local webmPlatform
                (scopeOf (@mount webmPlatform defaultProps)) w) as (Hd & Hg & _ & _).
  split; [reflexivity|].
  destruct (Hd 0%nat {| message := "Permission denied" |} eq_refl) as [He Hr].
  destruct (Hg 0%nat (constructorThrows {| message := "NotSupportedError" |})
              {| message := "NotSupportedError" |} _ eq_refl eq_refl) as [He' Hr'].
  repeat split; assumption.
Defined.

(** ** After a failed start *)

Lemma Forall_inactive_lookup (rs : list MediaRecorder) (mr : nat) (r : MediaRecorder) :
  Forall (λ r, mr_state r = inactive) rs → rs !! mr = Some r → mr_state r = inactive.
Proof. intros Hall Hr. exact (Forall_lookup_1 _ _ _ _ Hall Hr). Qed.

(** While nothing is pending and no recorder is active, an event other
    than a click delivers nothing and leaves the world quiet. *)
Lemma quiet_step `{Platform} (ev : Event) (w : World) :
  quiet w → isClick ev = false →
  quiet (step ev w) ∧ delivered (step ev w) = delivered w.
Proof.
  intros [Hp Hr] Hev.
  destruct (handle_normal ev w) as [w1 Hh].
  rewrite (step_unfold _ _ _ Hh). unfold quiet.
  destruct (commit_frame (scopeOf w) w1) as (_ & -> & _ & _ & _ & _ & _ & _ & _ & _ & -> & _ & _ & ->).
  revert Hh.
  destruct ev; try discriminate Hev; unfold handle; unfold_m; cbn.
  - rewrite Hp, lookup_nil. intros [= <-]. auto.
  - rewrite Hp, lookup_nil. intros [= <-]. auto.
  - destruct (recorders (host w) !! mr) as [r|] eqn:Hmr;
      [rewrite (Forall_inactive_lookup _ _ _ Hr Hmr)|]; intros [= <-]; auto.
  - destruct (recorders (host w) !! mr) as [r|] eqn:Hmr;
      [rewrite (Forall_inactive_lookup _ _ _ Hr Hmr)|]; intros [= <-]; auto.
  - case_m; intros [= <-]; cbn; auto;
      match goal with
      | Hl : recorders (host w) !! _ = Some ?r, Hs : mr_state ?r = recording |- _ =>
          rewrite (Forall_inactive_lookup _ _ _ Hr Hl) in Hs; discriminate Hs
      end.
  - intros [= <-]. auto.
  - destruct hasMediaDevices; cbn; intros [= <-]; auto.
Qed.

Lemma quiet_run `{Platform} (evs : list Event) (w : World) :
  quiet w → forallb (λ ev, negb (isClick ev)) evs = true →
  delivered (run evs w) = delivered w.
Proof.
  revert w. induction evs as [|ev evs IH]; intros w Hq Hevs; [reflexivity|].
  cbn in Hevs. apply andb_prop in Hevs as [Hev Hevs].
  apply negb_true_iff in Hev.
  destruct (quiet_step ev w Hq Hev) as [Hq' Hd].
  change (run (ev :: evs) w) with (run evs (step ev w)).
  rewrite (IH _ Hq' Hevs). exact Hd.
Qed.

(** A click while idle: the provisional artifact, then the device request. *)
Lemma step_click_start `{Platform} (w : World) (now : Z) :
  hasMediaDevices = true → isSupported (hooks w) = true →
  isRecording (hooks w) = false →
  let w1 := step (click now) w in
  delivered w1 =
    delivered w ++ (if onDataRecorded (props w) then [provisional] else []) ∧
  pendingGetUserMedia (host w1) = pendingGetUserMedia (host w) ++ [scopeOf w] ∧
  recorders (host w1) = recorders (host w) ∧
  streams (host w1) = streams (host w) ∧
  isRecording (hooks w1) = false.
Proof.
  intros Hdev Hsup Hrec w1. subst w1.
  destruct (handle_normal (click now) w) as [w1 Hh].
  rewrite (step_unfold _ _ _ Hh).
  destruct (commit_frame (scopeOf w) w1)
    as (_ & -> & -> & _ & _ & _ & _ & _ & _ & _ & -> & -> & _ & ->).
  revert Hh. unfold handle. unfold_m. cbn. rewrite Hsup, Hrec, Hdev. cbn.
  destruct (onDataRecorded (props w)); cbn; intros [= <-]; cbn;
    rewrite ?app_nil_r; auto.
Qed.

(** Updating the element just appended. *)
Lemma snoc_update {A} (l : list A) (x : A) (f : A → A) :
  alter f (length l) (l ++ [x]) = l ++ [f x].
Proof. rewrite alter_app_r_alt by lia. rewrite Nat.sub_diag. reflexivity. Qed.

(** A start that fails delivers nothing and starts no recorder. *)
Lemma step_start_fails `{Platform} (w : World) (k : nat) (sc : Scope) (e : Exn)
    (failure : Event) :
  pendingGetUserMedia (host w) !! k = Some sc →
  failure = deviceDenied k e ∨
  failure = deviceGranted k (constructorThrows e) ∨
  failure = deviceGranted k (startThrows e) →
  let w' := step failure w in
  delivered w' = delivered w ∧
  pendingGetUserMedia (host w') = delete k (pendingGetUserMedia (host w)) ∧
  (∃ e', startFailed e' w') ∧
  (Forall (λ r, mr_state r = inactive) (recorders (host w)) →
   Forall (λ r, mr_state r = inactive) (recorders (host w'))).
Proof.
  intros Hk Hfail w'. subst w'.
  destruct (handle_normal failure w) as [w1 Hh].
  rewrite (step_unfold _ _ _ Hh).
  destruct (commit_frame (scopeOf w) w1)
    as (_ & -> & Hrec & Herr & _ & _ & _ & _ & _ & _ & -> & _ & _ & ->).
  unfold startFailed. rewrite Hrec, Herr. clear Hrec Herr.
  revert Hh.
  destruct Hfail as [-> | [-> | ->]]; unfold handle; unfold_m; cbn; rewrite Hk; cbn.
  - intros [= <-]. cbn. eauto 6.
  - case_m; intros [= <-]; cbn; repeat split; auto;
      eexists (Build_Exn _); split; reflexivity.
  - case_m; intros [= <-]; cbn; repeat split; auto;
      try (eexists (Build_Exn _); split; reflexivity);
      intros Hall; rewrite ?snoc_update; apply Forall_app; split; auto.
Qed.

(** C10: a start that fails after the provisional artifact was handed over
    is never followed by another call of [onDataRecorded] for that attempt.
    From a quiet, idle world: the click delivers the provisional artifact;
    the denial (or the recorder's constructor or [start] throwing) delivers
    nothing and leaves the component idle with an error; and whatever
    happens next, short of another click, the provisional artifact, with
    [isRecording] true, stays the last thing the caller received. *)
Theorem failed_start_leaves_provisional `{Platform}
    (w : World) (now : Z) (e : Exn) (failure : Event) (evs : list Event) :
  hasMediaDevices = true →
  isSupported (hooks w) = true →
  isRecording (hooks w) = false →
  onDataRecorded (props w) = true →
  quiet w →
  failure = deviceDenied 0 e ∨
  failure = deviceGranted 0 (constructorThrows e) ∨
  failure = deviceGranted 0 (startThrows e) →
  forallb (λ ev, negb (isClick ev)) evs = true →
  let w1 := step (click now) w in
  let w2 := step failure w1 in
  delivered w1 = delivered w ++ [provisional] ∧
  delivered w2 = delivered w1 ∧
  (∃ e', startFailed e' w2) ∧
  delivered (run evs w2) = delivered w ++ [provisional] ∧
  last (delivered (run evs w2)) = Some provisional ∧
  art_isRecording provisional = true.
Proof.
  intros Hdev Hsup Hrec Hcb [Hp Hr] Hfail Hevs w1 w2.
  destruct (step_click_start w now Hdev Hsup Hrec) as (Hd1 & Hp1 & Hr1 & _ & _).
  fold w1 in Hd1, Hp1, Hr1. rewrite Hcb in Hd1. rewrite Hp in Hp1. cbn in Hp1.
  assert (Hk : pendingGetUserMedia (host w1) !! 0%nat = Some (scopeOf w))
    by (rewrite Hp1; reflexivity).
  destruct (step_start_fails w1 0 (scopeOf w) e failure Hk Hfail) as (Hd2 & Hp2 & Hf & Hr2).
  fold w2 in Hd2, Hp2, Hf, Hr2. rewrite Hp1 in Hp2. cbn in Hp2.
  rewrite Hr1 in Hr2. specialize (Hr2 Hr).
  assert (Hq2 : quiet w2) by (split; assumption).
  rewrite (quiet_run evs w2 Hq2 Hevs), Hd2, Hd1.
  repeat split; try assumption. apply last_snoc.
Qed.

Lemma failed_start_leaves_provisional_witness :
  let w := @mount webmPlatform defaultProps in
  let w2 := @run webmPlatform
              [click 1000; deviceDenied 0 {| message := "Permission denied" |};
               tick 1 1100; dataAvailable 0 (bytesOf 4); stopped 0] w in
  delivered w2 = [provisional] ∧ last (delivered w2) = Some provisional.
Proof.
  intros w w2.
  pose proof (@failed_start_leaves_provisional webmPlatform w 1000
                {| message := "Permission denied" |}
                (deviceDenied 0 {| message := "Permission denied" |})
                [tick 1 1100; dataAvailable 0 (bytesOf 4); stopped 0]
                eq_refl eq_refl eq_refl eq_refl
                (conj eq_refl (Forall_nil_2 _))
                (or_introl eq_refl) eq_refl) as (_ & _ & _ & Hrun & Hlast & _).
  split; [exact Hrun | exact Hlast].
Defined.

(** ** What the host's closures captured *)

Lemma recorderOk_withState `{Platform} (r : MediaRecorder) (s : RecorderState) :
  recorderOk r → mr_state r ≠ inactive ∨ s = inactive → recorderOk (mr_withState s r).
Proof.
  unfold recorderOk. cbn. destruct (mr_handlers r); [auto|].
  intros Hr [Hs | ->]; [contradiction | reflexivity].
Qed.

Lemma Forall_alter_lookup {A} (P : A → Prop) (f : A → A) (l : list A) (i : nat) :
  Forall P l → (∀ x, l !! i = Some x → P x → P (f x)) → Forall P (alter f i l).
Proof.
  intros Hall Hf. apply Forall_lookup_2. intros j y Hy.
  rewrite list_lookup_alter in Hy. case_decide as Hij.
  - subst j. destruct (l !! i) as [x|] eqn:Hx; [|discriminate Hy].
    injection Hy as <-. apply Hf; [reflexivity|].
    exact (Forall_lookup_1 _ _ _ _ Hall Hx).
  - exact (Forall_lookup_1 _ _ _ _ Hall Hy).
Qed.

Lemma alter_nil_inv {A} (f : A → A) (l : list A) (i : nat) :
  alter f i l ≠ [] → l ≠ [].
Proof. intros Hne ->. apply Hne. reflexivity. Qed.

Lemma ClosureInv_mount `{Platform} (p : VoiceRecorderProps) : ClosureInv (mount p).
Proof. split; cbn; [constructor | constructor | congruence]. Qed.

Ltac closure_goal :=
  cbn; rewrite ?snoc_update; auto;
  repeat match goal with
  | |- Forall _ (_ ++ [_]) =>
      apply Forall_app; split; [|apply Forall_singleton; cbn]
  | |- Forall _ (delete _ _) => apply Forall_delete
  | |- Forall recorderOk (alter _ _ _) =>
      apply Forall_alter_lookup; [|intros ? ? ?]
  | |- recorderOk (mr_withState _ _) =>
      apply recorderOk_withState; [|first [right; reflexivity | left; congruence]]
  | |- recorderOk {| mr_state := _ |} => unfold recorderOk; cbn; try split
  | Hp : Forall _ ?l, Hl : ?l !! _ = Some ?sc |- sc_isRecording ?sc = false =>
      exact (Forall_lookup_1 _ _ _ _ Hp Hl)
  | |- alter _ _ _ ≠ [] → _ => let Hne := fresh in intros Hne; apply alter_nil_inv in Hne
  | Hs : ?l ≠ [] → _, Hne : ?l ≠ [] |- _ => specialize (Hs Hne)
  | Heq : streamRef (refs ?w) = Some _ |- context [streamRef (refs ?w)] => rewrite Heq
  | Hs : ∃ s, None = Some s ∧ _ |- _ => destruct Hs as (? & ? & _); discriminate
  | |- _ ≠ [] → ∃ s, Some _ = Some s ∧ _ => intros _
  | |- _ = _ ∧ _ = _ => split
  | |- context [length (<[_ := _]> _)] => rewrite length_insert
  | |- ∃ s, Some _ = Some s ∧ _ =>
      eexists; split; [reflexivity | rewrite ?length_app; cbn; lia]
  end; auto.

Lemma ClosureInv_handle `{Platform} (ev : Event) (w w1 : World) :
  ClosureInv w → handle ev w = (Normal (), w1) → ClosureInv w1.
Proof.
  intros [Hp Hr Hs]. destruct ev; unfold handle; unfold_m.
  - (* click *)
    case_m; intros [= <-]; split; closure_goal.
  - (* deviceGranted *)
    case_m; intros [= <-]; split; closure_goal.
  - case_m; intros [= <-]; split; closure_goal.
  - case_m; intros [= <-]; split; closure_goal.
  - case_m; intros [= <-]; split; closure_goal.
  - case_m; intros [= <-]; split; closure_goal.
  - case_m; intros [= <-]; split; closure_goal.
  - case_m; intros [= <-]; split; closure_goal.
Qed.

Lemma ClosureInv_step `{Platform} (ev : Event) (w : World) :
  ClosureInv w → ClosureInv (step ev w).
Proof.
  intros Hinv. destruct (handle_normal ev w) as [w1 Hh].
  rewrite (step_unfold _ _ _ Hh).
  destruct (ClosureInv_handle ev w w1 Hinv Hh) as [Hp Hr Hs].
  destruct (commit_frame (scopeOf w) w1)
    as (_ & _ & _ & _ & _ & _ & _ & _ & Hsr & _ & Hrs & Hst & _ & Hpe).
  split; rewrite ?Hsr, ?Hrs, ?Hst, ?Hpe; assumption.
Qed.

Lemma ClosureInv_reachable `{Platform} (p : VoiceRecorderProps) (w : World) :
  Reachable p w → ClosureInv w.
Proof.
  induction 1 as [|w ev _ IH]; [apply ClosureInv_mount | exact (ClosureInv_step ev w IH)].
Qed.

(** ** What is handed to the caller *)

(** Only a click hands over the provisional artifact, only a recorder's
    [stop] event a final one, and that one was built by handlers whose
    scope has [isRecording] false. *)
Lemma step_delivers `{Platform} (ev : Event) (w : World) :
  ClosureInv w →
  ∃ l, delivered (step ev w) = delivered w ++ l ∧
       match ev with
       | click _ => l = [] ∨ l = [provisional]
       | stopped _ => l = [] ∨ ∃ a, l = [a] ∧ art_isRecording a = false
       | _ => l = []
       end.
Proof.
  intros [Hp Hr Hs]. destruct (handle_normal ev w) as [w1 Hh].
  rewrite (step_unfold _ _ _ Hh).
  destruct (commit_frame (scopeOf w) w1) as (_ & -> & _).
  revert Hh. destruct ev; unfold handle; unfold_m; case_m; intros [= <-]; cbn.
  all: try (exists []; rewrite app_nil_r; split; [reflexivity | auto; fail]).
  all: try (exists [provisional]; auto; fail).
  all: eexists [_]; (split; [reflexivity|]); right; eexists; (split; [reflexivity|]); cbn.
  all: match goal with
       | Hl : recorders _ !! _ = Some ?r, Hh : mr_handlers ?r = Some _ |- _ =>
           pose proof (Forall_lookup_1 _ _ _ _ Hr Hl) as Hok;
           unfold recorderOk in Hok; rewrite Hh in Hok; apply Hok
       end.
Qed.

(** C9: a final artifact always reports [isRecording] false.  The handler
    that builds it reads the flag of the render in which [startRecording]
    was called, and [toggleRecording] calls it only when that flag is
    false.  So whenever a recorder's [stop] event hands over an artifact its
    flag is false, and among everything handed over only the provisional
    artifact carries a true flag. *)
Theorem final_artifact_not_recording `{Platform} (p : VoiceRecorderProps) (w : World) :
  Reachable p w →
  (∀ mr a, delivered (step (stopped mr) w) = delivered w ++ [a] →
           art_isRecording a = false) ∧
  (∀ a, a ∈ delivered w → art_isRecording a = true → a = provisional).
Proof.
  intros Hreach. split.
  - intros mr a Hd.
    destruct (step_delivers (stopped mr) w (ClosureInv_reachable p w Hreach))
      as (l & Hl & Hcase).
    rewrite Hl in Hd. apply app_inv_head in Hd. subst l.
    destruct Hcase as [Hnil | (a' & [= <-] & Ha)]; [discriminate Hnil | exact Ha].
  - induction Hreach as [|w ev Hreach IH]; intros a Ha Hflag.
    + cbn in Ha. apply elem_of_nil in Ha. contradiction.
    + destruct (step_delivers ev w (ClosureInv_reachable p w Hreach)) as (l & Hl & Hcase).
      rewrite Hl in Ha. apply elem_of_app in Ha as [Ha | Ha]; [exact (IH a Ha Hflag)|].
      destruct ev; try (subst l; apply elem_of_nil in Ha; contradiction).
      * destruct Hcase as [-> | ->];
          [apply elem_of_nil in Ha; contradiction
          |apply list_elem_of_singleton in Ha; exact Ha].
      * destruct Hcase as [-> | (a' & -> & Ha')];
          [apply elem_of_nil in Ha; contradiction|].
        apply list_elem_of_singleton in Ha. subst a'. congruence.
Qed.

Lemma final_artifact_not_recording_witness :
  let w := @run webmPlatform
             [click 1000; deviceGranted 0 noFault; dataAvailable 0 (bytesOf 3);
              click 4000]
             (@mount webmPlatform defaultProps) in
  delivered w = [provisional] ∧
  ∃ a, delivered (@step webmPlatform (stopped 0) w) = delivered w ++ [a] ∧
       art_isRecording a = false.
Proof.
  intros w.
  assert (Hreach : @Reachable webmPlatform defaultProps w).
  { unfold w, run. cbn [foldl].
    do 4 apply (@reach_step webmPlatform). apply (@reach_mount webmPlatform). }
  destruct (@final_artifact_not_recording webmPlatform defaultProps w Hreach) as [Hfinal _].
  split; [vm_compute; reflexivity|].
  eexists. split; [vm_compute; reflexivity|].
  apply (Hfinal 0%nat). vm_compute. reflexivity.
Defined.

(** ** The recorder's events *)

Lemma step_dataAvailable `{Platform} (w : World) (mr : nat) (r : MediaRecorder)
    (h : Handlers) (data : Blob) :
  recorders (host w) !! mr = Some r → mr_state r ≠ inactive →
  mr_handlers r = Some h →
  step (dataAvailable mr data) w =
    if 0 <? blobSize data
    then withRefs (λ r, refs_audioChunks (audioChunksRef r ++ [data]) r) w
    else w.
Proof.
  intros Hr Hs Hh.
  assert (Hhandle : handle (dataAvailable mr data) w =
            (Normal (), if 0 <? blobSize data
                        then withRefs (λ r, refs_audioChunks (audioChunksRef r ++ [data]) r) w
                        else w)).
  { unfold handle. unfold_m. cbn. rewrite Hr, Hh.
    destruct (mr_state r); [contradiction| |]; destruct (0 <? blobSize data); reflexivity. }
  rewrite (step_unfold _ _ _ Hhandle).
  apply commit_same; destruct (0 <? blobSize data); reflexivity.
Qed.

Lemma blobBytes_empty (data : Blob) : (0 <? blobSize data) = false → blobBytes data = [].
Proof.
  unfold blobSize. intros Hs. apply Z.ltb_ge in Hs.
  destruct (blobBytes data); [reflexivity | cbn in Hs; lia].
Qed.


(** The [stop] event of a recorder that was started: it becomes inactive,
    its [onstop] runs, the component renders. *)
Lemma step_stopped `{Platform} (w : World) (mr : nat) (r : MediaRecorder) (h : Handlers) :
  recorders (host w) !! mr = Some r → mr_state r ≠ inactive →
  mr_handlers r = Some h →
  step (stopped mr) w =
    exec (commit (scopeOf w))
      (exec (onstop h) (withHost (host_recorders (alter (mr_withState inactive) mr)) w)).
Proof.
  intros Hr Hs Hh. unfold step, handle. unfold exec at 1.
  unfold mbind at 1 2, M_bind, gets. rewrite Hr, Hh.
  destruct (mr_state r); [contradiction| |]; unfold updateRecorder, modify, mbind, M_bind, exec;
    destruct (onstop h _) as [[[]|e] w1] eqn:Hon; try reflexivity;
    revert Hon; unfold_m; case_m; discriminate.
Qed.


(** [onstop] without chunks: nothing is handed over, the stream held in
    [streamRef] is stopped. *)
Lemma onstop_empty (h : Handlers) (w : World) :
  audioChunksRef (refs w) = [] →
  exec (onstop h) w =
    match streamRef (refs w) with
    | Some s => withHost (host_streams (λ l, <[s := false]> l)) w
    | None => w
    end.
Proof.
  intros Hc. unfold_m. cbn. rewrite Hc.
  change (0 <? Z.of_nat (length [])) with false. cbn.
  destruct (streamRef (refs w)); reflexivity.
Qed.




(** ** The countdown *)

Lemma TimerInv_mount `{Platform} (p : VoiceRecorderProps) : TimerInv (mount p).
Proof. split; cbn; [reflexivity | discriminate | discriminate]. Qed.

(** Clearing the interval held in [timerRef] leaves none. *)
Lemma filter_timerRef (w : World) (n : nat) :
  TimerInv w → timerRef (refs w) = Some n →
  filter (λ p : nat * (Z * Scope), p.1 ≠ n) (intervals (host w)) = [].
Proof.
  intros [Hidle Hcount _] Hn.
  destruct (isRecording (hooks w)) eqn:Hrec.
  - destruct (Hcount eq_refl) as (id & sc & -> & Hid & _).
    rewrite Hid in Hn. injection Hn as <-.
    rewrite filter_cons_False by (cbn; auto). reflexivity.
  - rewrite (Hidle eq_refl). reflexivity.
Qed.

(** What a handler may do to the countdown before the render: it keeps
    [timerRef]; it keeps the intervals, or clears them when it clears the
    flag; and it sets the flag only with a recorder in [mediaRecorderRef]. *)
Lemma TimerInv_handle `{Platform} (ev : Event) (w w1 : World) :
  TimerInv w → handle ev w = (Normal (), w1) →
  timerRef (refs w1) = timerRef (refs w) ∧
  (intervals (host w1) = intervals (host w)
   ∨ intervals (host w1) = [] ∧ isRecording (hooks w1) = false) ∧
  (isRecording (hooks w1) = true → is_Some (mediaRecorderRef (refs w1))).
Proof.
  intros Hinv.
  destruct ev; unfold handle; unfold_m; case_m; intros [= <-]; cbn.
  all: repeat match goal with
       | |- _ ∧ _ => split
       | |- ?x = ?x => reflexivity
       | |- false = true → _ => discriminate
       | |- true = true → is_Some (Some _) => eauto
       | |- isRecording (hooks ?w) = true → is_Some (mediaRecorderRef (refs ?w)) =>
           exact (inv_recorder w Hinv)
       | |- ?l = ?l ∨ _ => left; reflexivity
       | Hn : timerRef (refs ?w) = Some ?n
         |- filter _ (intervals (host ?w)) = intervals (host ?w) ∨ _ =>
           right; split; [exact (filter_timerRef w n Hinv Hn) | reflexivity]
       end.
  all: congruence.
Qed.

(** The render restores the countdown invariant. *)
Lemma TimerInv_commit (w w1 : World) :
  TimerInv w →
  timerRef (refs w1) = timerRef (refs w) →
  intervals (host w1) = intervals (host w)
  ∨ intervals (host w1) = [] ∧ isRecording (hooks w1) = false →
  (isRecording (hooks w1) = true → is_Some (mediaRecorderRef (refs w1))) →
  TimerInv (exec (commit (scopeOf w)) w1).
Proof.
  intros Hinv Hti Hin Href. pose proof Hinv as [Hidle Hcount _].
  assert (Hclear : ∀ n, timerRef (refs w1) = Some n →
            filter (λ p : nat * (Z * Scope), p.1 ≠ n) (intervals (host w1)) = []).
  { intros n Hn. destruct Hin as [-> | [-> _]]; [|reflexivity].
    apply filter_timerRef; [exact Hinv | congruence]. }
  assert (Hnone : timerRef (refs w1) = None → intervals (host w1) = []).
  { intros Hn. destruct Hin as [-> | [-> _]]; [|reflexivity].
    destruct (isRecording (hooks w)) eqn:Hrec; [|exact (Hidle eq_refl)].
    destruct (Hcount eq_refl) as (id & sc & _ & Hid & _). congruence. }
  unfold_commit. cbn.
  destruct (isRecording (hooks w)) eqn:Hrec, (isRecording (hooks w1)) eqn:Hrec1; cbn.
  - (* recording before and after *)
    destruct (default 60 (duration (props w)) =? default 60 (duration (props w1))) eqn:Hd; cbn.
    + apply Z.eqb_eq in Hd. destruct Hin as [Hin | [_ [=]]].
      destruct (Hcount eq_refl) as (id & sc & Hi & Hid & Hsr & Hsd).
      split; cbn; rewrite ?Hrec1; try discriminate; [|exact Href].
      intros _. exists id, sc. rewrite Hin, Hti. repeat split; try assumption.
      cbn in Hsd. congruence.
    + destruct (timerRef (refs w1)) as [n|] eqn:Hn; cbn;
        (split; cbn; rewrite ?Hrec1; try discriminate; [|exact Href]);
        intros _; eexists _, _; rewrite ?(Hclear n eq_refl), ?(Hnone eq_refl);
        repeat split; cbn; auto.
  - (* stopped *)
    destruct (timerRef (refs w1)) as [n|] eqn:Hn; cbn;
      split; cbn; rewrite ?Hrec1; try discriminate; intros _;
      [exact (Hclear n eq_refl) | exact (Hnone eq_refl)].
  - (* started *)
    destruct (timerRef (refs w1)) as [n|] eqn:Hn; cbn;
      (split; cbn; rewrite ?Hrec1; try discriminate; [|exact Href]);
      intros _; eexists _, _; rewrite ?(Hclear n eq_refl), ?(Hnone eq_refl);
      repeat split; cbn; auto.
  - (* idle before and after *)
    destruct (default 60 (duration (props w)) =? default 60 (duration (props w1))) eqn:Hd; cbn.
    + split; cbn; rewrite ?Hrec1; try discriminate. intros _.
      destruct Hin as [-> | [-> _]]; [exact (Hidle eq_refl) | reflexivity].
    + destruct (timerRef (refs w1)) as [n|] eqn:Hn; cbn;
        split; cbn; rewrite ?Hrec1; try discriminate; intros _;
        [exact (Hclear n eq_refl) | exact (Hnone eq_refl)].
Qed.

Lemma TimerInv_step `{Platform} (ev : Event) (w : World) :
  TimerInv w → TimerInv (step ev w).
Proof.
  intros Hinv. destruct (handle_normal ev w) as [w1 Hh].
  rewrite (step_unfold _ _ _ Hh).
  destruct (TimerInv_handle ev w w1 Hinv Hh) as (Hti & Hin & Href).
  exact (TimerInv_commit w w1 Hinv Hti Hin Href).
Qed.

Lemma TimerInv_reachable `{Platform} (p : VoiceRecorderProps) (w : World) :
  Reachable p w → TimerInv w.
Proof.
  induction 1 as [|w ev _ IH]; [apply TimerInv_mount | exact (TimerInv_step ev w IH)].
Qed.


(** ** The compression level *)

Lemma handle_default_level `{Platform} (ev : Event) (w w1 : World) :
  handle ev w = (Normal (), w1) →
  handle (eventWithDefaultLevel ev) (worldWithDefaultLevel w) =
    (Normal (), worldWithDefaultLevel w1).
Proof.
  destruct ev; unfold handle; unfold_m; cbn; case_m; intros [= <-]; reflexivity.
Qed.

Lemma commit_default_level (before : Scope) (w : World) :
  exec (commit before) (worldWithDefaultLevel w) =
    worldWithDefaultLevel (exec (commit before) w).
Proof. unfold_commit. cbn. case_m; reflexivity. Qed.

Lemma step_default_level `{Platform} (ev : Event) (w : World) :
  step (eventWithDefaultLevel ev) (worldWithDefaultLevel w) =
    worldWithDefaultLevel (step ev w).
Proof.
  destruct (handle_normal ev w) as [w1 Hh].
  rewrite (step_unfold _ _ _ Hh).
  rewrite (step_unfold _ _ _ (handle_default_level ev w w1 Hh)).
  apply commit_default_level.
Qed.

Lemma run_default_level `{Platform} (evs : list Event) (w : World) :
  run (eventWithDefaultLevel <$> evs) (worldWithDefaultLevel w) =
    worldWithDefaultLevel (run evs w).
Proof.
  revert w. induction evs as [|ev evs IH]; intros w; [reflexivity|].
  change (run (eventWithDefaultLevel <$> ev :: evs) (worldWithDefaultLevel w))
    with (run (eventWithDefaultLevel <$> evs)
              (step (eventWithDefaultLevel ev) (worldWithDefaultLevel w))).
  rewrite step_default_level. apply IH.
Qed.

Lemma mount_default_level `{Platform} (p : VoiceRecorderProps) :
  mount (withDefaultLevel p) = worldWithDefaultLevel (mount p).
Proof. reflexivity. Qed.

(** A key that is none of the four names and is not inherited from
    [Object.prototype] is not in the table. *)
Lemma settingOf_unrecognized (key : string) :
  key ∉ levelName <$> [none; low; medium; high] →
  key ∉ objectPrototypeKeys →
  settingOf key = None.
Proof.
  intros Hlevels Hproto. unfold settingOf.
  assert (Hown : ownProperty key compressionSettings = None).
  { cbn. repeat match goal with
         | |- context [String.eqb key ?k] =>
             destruct (String.eqb_spec key k) as [->|_];
               [exfalso; apply Hlevels; apply list_elem_of_In; cbn; auto 10|]
         end. reflexivity. }
  rewrite Hown.
  assert (Hex : existsb (String.eqb key) objectPrototypeKeys = false).
  { apply not_true_is_false. intros Hex. apply existsb_exists in Hex as (k & Hk & Heq).
    apply String.eqb_eq in Heq. subst k. apply Hproto. apply list_elem_of_In. exact Hk. }
  rewrite Hex. reflexivity.
Qed.

(** C5, as the code has it: the lookup succeeds for the four levels of the
    prop's type; a [compressionLevel] left out is ["medium"], in every run
    of the component; and a key that is neither one of the four nor
    inherited from [Object.prototype] is not mapped to ["medium"]: the
    lookup is [undefined], [getSupportedMimeType] throws, and a granted
    start ends in the [catch] with a message, without a recorder. *)
Theorem compressionLevel_lookup `{Platform} :
  (∀ level : CompressionLevel, ∃ setting mime,
      settingOf (levelName level) = Some setting ∧
      getSupportedMimeType (levelName level) = Normal mime) ∧
  (∀ p evs,
      run (eventWithDefaultLevel <$> evs) (mount (withDefaultLevel p)) =
        worldWithDefaultLevel (run evs (mount p))) ∧
  (∀ p, compressionLevel p = None →
        compressionLevel (withDefaultLevel p) = Some (levelName medium)) ∧
  (∀ key w k sc fault,
      key ∉ levelName <$> [none; low; medium; high] →
      key ∉ objectPrototypeKeys →
      pendingGetUserMedia (host w) !! k = Some sc →
      sc_compressionLevel sc = key →
      let w' := step (deviceGranted k fault) w in
      getSupportedMimeType key = Throw (typeErrorUndefined "mimeType") ∧
      startFailed (typeErrorUndefined "mimeType") w' ∧
      recorders (host w') = recorders (host w) ∧
      delivered w' = delivered w).
Proof.
  split; [|split; [|split]].
  - intros level. destruct level; eexists _, _; split; reflexivity.
  - intros p evs. rewrite mount_default_level. apply run_default_level.
  - intros p Hp. unfold withDefaultLevel. rewrite Hp. reflexivity.
  - intros key w k sc fault Hlevels Hproto Hk Hkey w'.
    pose proof (settingOf_unrecognized key Hlevels Hproto) as Hnone.
    assert (Hget : getSupportedMimeType key = Throw (typeErrorUndefined "mimeType"))
      by (unfold getSupportedMimeType; rewrite Hnone; reflexivity).
    split; [exact Hget|]. subst w'.
    assert (Hh : handle (deviceGranted k fault) w =
              (Normal (),
               exec (startRecording_catch (typeErrorUndefined "mimeType"))
                 (withRefs (refs_stream (Some (length (streams (host w)))))
                    (withHost (host_streams (λ l, l ++ [true]))
                       (withHost (host_pending (delete k)) w))))).
    { unfold handle. unfold mbind at 1, M_bind, gets. rewrite Hk.
      unfold_m. cbn. rewrite Hkey, Hget. reflexivity. }
    rewrite (step_unfold _ _ _ Hh).
    split; [apply commit_startFailed; split; reflexivity|].
    destruct (commit_frame (scopeOf w)
                (exec (startRecording_catch (typeErrorUndefined "mimeType"))
                   (withRefs (refs_stream (Some (length (streams (host w)))))
                      (withHost (host_streams (λ l, l ++ [true]))
                         (withHost (host_pending (delete k)) w)))))
      as (_ & -> & _ & _ & _ & _ & _ & _ & _ & _ & -> & _).
    split; reflexivity.
Qed.

Lemma compressionLevel_lookup_witness :
  let ultra := {| onDataRecorded := true; duration := None;
                  compressionLevel := Some "ultra" |} in
  let w := @step webmPlatform (click 1000) (@mount webmPlatform ultra) in
  let w' := @step webmPlatform (deviceGranted 0 noFault) w in
  error (hooks w') =
    Some "Could not access microphone: Cannot read properties of undefined (reading 'mimeType')" ∧
  isRecording (hooks w') = false ∧ recorders (host w') = [].
Proof.
  intros ultra w w'.
  destruct (@compressionLevel_lookup webmPlatform) as (_ & _ & _ & Hbad).
  destruct (Hbad "ultra" w 0%nat (scopeOf (@mount webmPlatform ultra)) noFault
              ltac:(intros Hin; apply list_elem_of_In in Hin; cbn in Hin;
                    intuition discriminate)
              ltac:(intros Hin; apply list_elem_of_In in Hin; cbn in Hin;
                    intuition discriminate)
              eq_refl eq_refl) as (_ & [He Hr] & Hrs & _).
  split; [exact He|]. split; [exact Hr | exact Hrs].
Defined.

(** C5 as stated fails: with [compressionLevel] ["ultra"] a granted start
    ends with an error and not recording, whereas with ["medium"] the same
    events leave the component recording at 64000 bits per second. *)
Lemma unrecognized_level_is_not_medium :
  let ultra := {| onDataRecorded := true; duration := None;
                  compressionLevel := Some "ultra" |} in
  let asMedium := {| onDataRecorded := true; duration := None;
                     compressionLevel := Some "medium" |} in
  let evs := [click 1000; deviceGranted 0 noFault] in
  settingOf "ultra" = None ∧
  @getSupportedMimeType webmPlatform "ultra" = Throw (typeErrorUndefined "mimeType") ∧
  isRecording (hooks (@run webmPlatform evs (@mount webmPlatform ultra))) = false ∧
  error (hooks (@run webmPlatform evs (@mount webmPlatform ultra))) =
    Some "Could not access microphone: Cannot read properties of undefined (reading 'mimeType')" ∧
  recorders (host (@run webmPlatform evs (@mount webmPlatform ultra))) = [] ∧
  isRecording (hooks (@run webmPlatform evs (@mount webmPlatform asMedium))) = true ∧
  mr_options <$> recorders (host (@run webmPlatform evs (@mount webmPlatform asMedium))) =
    [ {| opt_mimeType := "audio/webm"; opt_audioBitsPerSecond := Some 64000 |} ].
Proof. vm_compute. repeat split. Qed.

(** ** One session at a time *)

Lemma filter_isActive_alter (f : MediaRecorder → MediaRecorder) (l : list MediaRecorder)
    (i : nat) :
  (∀ r, l !! i = Some r → isActive (f r) = true → isActive r = true) →
  (length (List.filter isActive (alter f i l)) ≤ length (List.filter isActive l))%nat.
Proof.
  revert i. induction l as [|r l IH]; intros i Hf; [reflexivity|].
  destruct i as [|i]; cbn.
  - destruct (isActive (f r)) eqn:Hfr; [rewrite (Hf r eq_refl Hfr); reflexivity|].
    destruct (isActive r); cbn; lia.
  - specialize (IH i Hf). destruct (isActive r); cbn; lia.
Qed.

Lemma quiet_sessions (w : World) : quiet w → sessions w = 0%nat.
Proof.
  intros [Hp Hr]. unfold sessions. rewrite Hp. cbn.
  induction Hr as [|r l Hr _ IH]; [reflexivity|].
  cbn. unfold isActive at 1. rewrite Hr. exact IH.
Qed.

Lemma length_delete_lookup {A} (l : list A) (k : nat) (x : A) :
  l !! k = Some x → length l = S (length (delete k l)).
Proof.
  intros Hk. rewrite length_delete by eauto.
  apply lookup_lt_Some in Hk. lia.
Qed.

Ltac sessions_goal :=
  cbn; rewrite ?snoc_update, ?List.filter_app, ?length_app; cbn;
  repeat match goal with
  | Hk : ?l !! ?k = Some _ |- context [length (delete ?k ?l)] =>
      rewrite (length_delete_lookup l k _ Hk)
  | |- context [length (List.filter isActive (alter ?f ?i ?l))] =>
      let Hle := fresh "Hle" in
      assert (Hle : (length (List.filter isActive (alter f i l))
                     ≤ length (List.filter isActive l))%nat)
        by (apply filter_isActive_alter; intros ? ? ?; unfold isActive in *; cbn in *;
            repeat match goal with
                   | |- context [match mr_state ?r with _ => _ end] =>
                       destruct (mr_state r) eqn:?
                   end; congruence);
      revert Hle;
      generalize (length (List.filter isActive (alter f i l)))
  end; intros; try lia.

(** Nothing but a click that starts adds a session. *)
Lemma sessions_step `{Platform} (ev : Event) (w : World) :
  isClick ev = false ∨ isRecording (hooks w) = true →
  (sessions (step ev w) ≤ sessions w)%nat.
Proof.
  intros Hev. destruct (handle_normal ev w) as [w1 Hh].
  rewrite (step_unfold _ _ _ Hh). unfold sessions.
  destruct (commit_frame (scopeOf w) w1)
    as (_ & _ & _ & _ & _ & _ & _ & _ & _ & _ & -> & _ & _ & ->).
  revert Hh. destruct ev; unfold handle; unfold_m; case_m; intros [= <-].
  all: sessions_goal.
Qed.

(** A click in a quiet, idle world opens exactly one session. *)
Lemma sessions_click_quiet `{Platform} (w : World) (now : Z) :
  quiet w → (sessions (step (click now) w) ≤ 1)%nat.
Proof.
  intros Hq. pose proof (quiet_sessions w Hq) as Hzero. revert Hzero.
  destruct (handle_normal (click now) w) as [w1 Hh].
  rewrite (step_unfold _ _ _ Hh). unfold sessions.
  destruct (commit_frame (scopeOf w) w1)
    as (_ & _ & _ & _ & _ & _ & _ & _ & _ & _ & -> & _ & _ & ->).
  revert Hh. unfold handle; unfold_m; case_m; intros [= <-].
  all: sessions_goal.
Qed.

Lemma Disciplined_Reachable `{Platform} (p : VoiceRecorderProps) (w : World) :
  Disciplined p w → Reachable p w.
Proof. induction 1; [apply reach_mount | apply reach_step; assumption]. Qed.

Lemma Disciplined_sessions `{Platform} (p : VoiceRecorderProps) (w : World) :
  Disciplined p w → (sessions w ≤ 1)%nat.
Proof.
  induction 1 as [|w ev _ IH Hclick]; [cbn; lia|].
  destruct (isClick ev) eqn:Hev.
  - destruct (Hclick eq_refl) as [Hrec | Hq].
    + pose proof (sessions_step ev w (or_intror Hrec)). lia.
    + destruct ev; try discriminate Hev. apply sessions_click_quiet. exact Hq.
  - pose proof (sessions_step ev w (or_introl Hev)). lia.
Qed.

(** A click while recording runs [stopRecording]: nothing is handed over,
    no device is requested, no recorder or stream is made, and the
    component stops recording. *)
Lemma step_click_recording `{Platform} (w : World) (now : Z) :
  TimerInv w → isSupported (hooks w) = true → isRecording (hooks w) = true →
  let w' := step (click now) w in
  handle (click now) w = stopRecording (scopeOf w) w ∧
  delivered w' = delivered w ∧
  pendingGetUserMedia (host w') = pendingGetUserMedia (host w) ∧
  length (recorders (host w')) = length (recorders (host w)) ∧
  streams (host w') = streams (host w) ∧
  isRecording (hooks w') = false ∧
  intervals (host w') = [].
Proof.
  intros Hinv Hsup Hrec w'.
  assert (Htoggle : handle (click now) w = stopRecording (scopeOf w) w).
  { unfold handle, toggleRecording. unfold mbind at 1 2, M_bind, gets, when.
    rewrite Hsup. cbn. rewrite Hrec. reflexivity. }
  split; [exact Htoggle|].
  destruct (inv_recorder _ Hinv Hrec) as [mr Hmr].
  destruct (handle_normal (click now) w) as [w1 Hh]. subst w'.
  pose proof (TimerInv_step (click now) w Hinv) as Hinv'.
  rewrite (step_unfold _ _ _ Hh) in *.
  destruct (commit_frame (scopeOf w) w1)
    as (_ & -> & Hr & _ & _ & _ & _ & _ & _ & _ & -> & -> & _ & ->).
  assert (Hw1 : delivered w1 = delivered w ∧
                pendingGetUserMedia (host w1) = pendingGetUserMedia (host w) ∧
                length (recorders (host w1)) = length (recorders (host w)) ∧
                streams (host w1) = streams (host w) ∧
                isRecording (hooks w1) = false).
  { revert Hh. rewrite Htoggle. unfold_m. cbn. rewrite Hmr, Hrec. cbn.
    case_m; intros [= <-]; cbn; rewrite ?length_alter; repeat split. }
  destruct Hw1 as (Hd & Hp & Hl & Hs & Hf).
  rewrite <- Hr in Hf.
  repeat split; try assumption.
  exact (inv_idle _ Hinv' Hf).
Qed.


(** C6: the code breaks the claim.  The only guard of a start is the
    [isRecording] that [toggleRecording] reads, and that flag is set when
    the device is granted, not when it is asked for.  A second click before
    the grant therefore starts a second session: two provisional artifacts
    are handed over, two streams are acquired and two recorders record at
    once, both into [audioChunksRef].  The refs hold the second session
    only, so the click that stops reaches the second recorder alone: the
    artifact it hands over mixes the chunks of both, the first recorder goes
    on recording while the component shows that it is idle, and the first
    stream stays live even after the component unmounts. *)
Theorem second_session_bug :
  let start := @mount webmPlatform defaultProps in
  let once := @step webmPlatform (click 1000) start in
  let raced := @run webmPlatform
                 [click 1001; deviceGranted 0 noFault; deviceGranted 0 noFault] once in
  let ended := @run webmPlatform
                 [dataAvailable 0 (bytesOf 2); dataAvailable 1 (bytesOf 3);
                  click 2000; stopped 1] raced in
  @Reachable webmPlatform defaultProps ended ∧
  isRecording (hooks once) = false ∧ sessions once = 1%nat ∧
  sessions raced = 2%nat ∧
  delivered raced = [provisional; provisional] ∧
  mr_state <$> recorders (host raced) = [recording; recording] ∧
  mr_stream <$> recorders (host raced) = [0%nat; 1%nat] ∧
  streams (host raced) = [true; true] ∧
  mediaRecorderRef (refs raced) = Some 1%nat ∧ streamRef (refs raced) = Some 1%nat ∧
  isRecording (hooks ended) = false ∧
  mr_state <$> recorders (host ended) = [recording; inactive] ∧
  (length ∘ blobBytes ∘ art_blob <$> finalArtifacts (delivered ended)) = [5%nat] ∧
  streams (host ended) = [true; false] ∧
  streams (host (unmount ended)) = [true; false].
Proof.
  intros start once raced ended. split.
  - unfold ended, raced, once, run. cbn [foldl].
    do 8 apply (@reach_step webmPlatform). apply (@reach_mount webmPlatform).
  - vm_compute. repeat split.
Qed.

(** ** The one session and its device *)

Lemma sessions_pending_inactive (w : World) (k : nat) (sc : Scope) (i : nat)
    (r : MediaRecorder) :
  (sessions w ≤ 1)%nat → pendingGetUserMedia (host w) !! k = Some sc →
  recorders (host w) !! i = Some r → isActive r = false.
Proof.
  unfold sessions. intros Hone Hk Hi.
  apply lookup_lt_Some in Hk.
  destruct (isActive r) eqn:Ha; [|reflexivity].
  assert (Hin : In r (List.filter isActive (recorders (host w)))).
  { apply List.filter_In. split; [|exact Ha].
    apply list_elem_of_In, list_elem_of_lookup. eauto. }
  destruct (List.filter isActive (recorders (host w))); [contradiction | cbn in Hone; lia].
Qed.

Lemma ownsDevice_step `{Platform} (ev : Event) (w : World) :
  (sessions w ≤ 1)%nat → ownsDevice w → ownsDevice (step ev w).
Proof.
  intros Hone Hown. destruct (handle_normal ev w) as [w1 Hh].
  rewrite (step_unfold _ _ _ Hh). unfold ownsDevice.
  destruct (commit_frame (scopeOf w) w1)
    as (_ & _ & _ & _ & _ & _ & -> & _ & -> & _ & -> & _).
  revert Hh. destruct ev; unfold handle; unfold_m; case_m; intros [= <-]; cbn;
    rewrite ?snoc_update; intros i r Hi Ha.
  all: try (exact (Hown i r Hi Ha)).
  all: try match goal with
       | Hk : pendingGetUserMedia (host ?w) !! _ = Some _,
         Hi : (recorders (host ?w) ++ [_]) !! _ = Some _ |- _ =>
           apply lookup_snoc_Some in Hi as [[_ Hi] | [-> <-]];
             [rewrite (sessions_pending_inactive w _ _ _ _ Hone Hk Hi) in Ha; discriminate Ha
             |cbn; split; [reflexivity | intros _; reflexivity]]
       | Hk : pendingGetUserMedia (host ?w) !! _ = Some _,
         Hi : recorders (host ?w) !! _ = Some _ |- _ =>
           rewrite (sessions_pending_inactive w _ _ _ _ Hone Hk Hi) in Ha; discriminate Ha
       | Hi : alter _ ?n (recorders (host ?w)) !! ?i = Some ?r |- _ =>
           rewrite list_lookup_alter in Hi; case_decide;
             [subst i; destruct (recorders (host w) !! n) as [r0|] eqn:Hr0;
                [injection Hi as <-|discriminate Hi]
             |exact (Hown i r Hi Ha)]
       end.
  all: try (unfold isActive in Ha; cbn in Ha; discriminate Ha).
  all: try (cbn; split; [|discriminate];
            apply (Hown _ _ Hr0); unfold isActive; simplify_eq;
            match goal with
            | Hs : mr_state ?r = recording |- context [mr_state ?r] => rewrite Hs
            end; reflexivity).
Qed.

Lemma Disciplined_ownsDevice `{Platform} (p : VoiceRecorderProps) (w : World) :
  Disciplined p w → ownsDevice w.
Proof.
  induction 1 as [|w ev Hdisc IH _].
  - intros i r Hi. cbn in Hi. rewrite lookup_nil in Hi. discriminate Hi.
  - apply ownsDevice_step; [exact (Disciplined_sessions p w Hdisc) | exact IH].
Qed.


(** ** Releasing the device, and the duration *)

Lemma started_has_handlers `{Platform} (w : World) (mr : nat) (r : MediaRecorder) :
  ClosureInv w → recorders (host w) !! mr = Some r → mr_state r ≠ inactive →
  ∃ h, mr_handlers r = Some h.
Proof.
  intros Hinv Hr Hs.
  pose proof (Forall_lookup_1 _ _ _ _ (inv_recorders _ Hinv) Hr) as Hok.
  unfold recorderOk in Hok. destruct (mr_handlers r) as [h|]; [eauto | contradiction].
Qed.

Lemma isActive_started (r : MediaRecorder) : mr_state r ≠ inactive → isActive r = true.
Proof. unfold isActive. destruct (mr_state r); [contradiction | reflexivity | reflexivity]. Qed.

(** C7: when a started recorder stops and no chunk was accumulated,
    [onDataRecorded] is not called and no object URL is made, yet the
    tracks of the stream held in [streamRef] are stopped and the recorder is
    inactive.  In a run with one session at a time that stream is the
    recorder's own. *)
Theorem zero_chunks_stop `{Platform} (p : VoiceRecorderProps) (w : World)
    (mr : nat) (r : MediaRecorder) :
  Reachable p w →
  recorders (host w) !! mr = Some r → mr_state r ≠ inactive →
  audioChunksRef (refs w) = [] →
  let w' := step (stopped mr) w in
  delivered w' = delivered w ∧
  objectURLs (host w') = objectURLs (host w) ∧
  (∃ s, streamRef (refs w) = Some s ∧ streams (host w') !! s = Some false) ∧
  recorders (host w') !! mr = Some (mr_withState inactive r) ∧
  (Disciplined p w → streamRef (refs w) = Some (mr_stream r)).
Proof.
  intros Hreach Hr Hs Hchunks w'. subst w'.
  pose proof (ClosureInv_reachable p w Hreach) as Hinv.
  destruct (started_has_handlers w mr r Hinv Hr Hs) as [h Hh].
  rewrite (step_stopped w mr r h Hr Hs Hh).
  set (w2 := withHost (host_recorders (alter (mr_withState inactive) mr)) w).
  destruct (commit_frame (scopeOf w) (exec (onstop h) w2))
    as (_ & -> & _ & _ & _ & _ & _ & _ & _ & _ & -> & -> & -> & _).
  rewrite (onstop_empty h w2 Hchunks).
  destruct (inv_stream _ Hinv) as (s & Hsref & Hlt).
  { intros Hnil. rewrite Hnil in Hr. discriminate Hr. }
  change (streamRef (refs w2)) with (streamRef (refs w)). rewrite Hsref. cbn.
  split; [reflexivity|]. split; [reflexivity|]. split; [|split].
  - exists s. split; [reflexivity|]. apply list_lookup_insert_eq. exact Hlt.
  - rewrite list_lookup_alter_eq, Hr. reflexivity.
  - intros Hdisc. rewrite <- Hsref.
    exact (proj1 (Disciplined_ownsDevice p w Hdisc mr r Hr (isActive_started r Hs))).
Qed.

Lemma zero_chunks_stop_witness :
  let w := @run webmPlatform [click 1000; deviceGranted 0 noFault; click 1200]
             (@mount webmPlatform defaultProps) in
  let w' := @step webmPlatform (stopped 0) w in
  streams (host w) = [true] ∧
  delivered w' = [provisional] ∧ streams (host w') !! 0%nat = Some false.
Proof.
  intros w w'.
  assert (Hreach : @Reachable webmPlatform defaultProps w).
  { unfold w, run. cbn [foldl].
    do 3 apply (@reach_step webmPlatform). apply (@reach_mount webmPlatform). }
  destruct (@zero_chunks_stop webmPlatform defaultProps w 0%nat
              {| mr_state := stopping; mr_stream := 0;
                 mr_options := {| opt_mimeType := "audio/webm";
                                  opt_audioBitsPerSecond := Some 64000 |};
                 mr_handlers := Some {| h_scope := scopeOf (@mount webmPlatform defaultProps);
                                        h_mimeType := "audio/webm" |} |}
              Hreach eq_refl ltac:(discriminate) eq_refl)
    as (Hd & _ & (s & Hs & Hstopped) & _).
  split; [reflexivity|]. split; [exact Hd|].
  injection Hs as <-. exact Hstopped.
Defined.






(** ** The size formatter *)

Lemma append_cons (c : Ascii.ascii) (a b : string) : String c a +:+ b = String c (a +:+ b).
Proof. reflexivity. Qed.

Lemma append_nil (b : string) : "" +:+ b = b.
Proof. reflexivity. Qed.

Lemma string_app_assoc (a b c : string) : (a +:+ b) +:+ c = a +:+ (b +:+ c).
Proof.
  induction a as [|x a IH]; [reflexivity|].
  rewrite !append_cons, IH. reflexivity.
Qed.

Lemma length_app_string (a b : string) :
  String.length (a +:+ b) = (String.length a + String.length b)%nat.
Proof.
  induction a as [|c a IH]; [reflexivity|].
  rewrite append_cons. cbn [String.length]. rewrite IH. reflexivity.
Qed.

Lemma substring_0_app (a b : string) :
  substring 0 (String.length a) (a +:+ b) = a.
Proof.
  induction a as [|c a IH]; [rewrite append_nil; destruct b; reflexivity|].
  rewrite append_cons. cbn [String.length substring]. rewrite IH. reflexivity.
Qed.

Lemma substring_all (b : string) : substring 0 (String.length b) b = b.
Proof. induction b as [|c b IH]; cbn; [reflexivity | rewrite IH; reflexivity]. Qed.

Lemma substring_length_app (a b : string) :
  substring (String.length a) (String.length b) (a +:+ b) = b.
Proof.
  induction a as [|c a IH]; [rewrite append_nil; apply substring_all|].
  rewrite append_cons. cbn [String.length substring]. exact IH.
Qed.

Lemma pretty_N_go_app (x : N) (s : string) :
  pretty_N_go x s = pretty_N_go x "" +:+ s.
Proof.
  revert s. induction (N.lt_wf_0 x) as [x _ IH]; intros s.
  assert (x = 0 ∨ 0 < x)%N as [->|Hx] by lia.
  - rewrite !pretty_N_go_0. reflexivity.
  - rewrite (pretty_N_go_step x s), (pretty_N_go_step x "") by exact Hx.
    assert (Hlt : (x `div` 10 < x)%N) by (apply N.div_lt; lia).
    rewrite (IH _ Hlt (String (pretty_N_char (x `mod` 10)) s)).
    rewrite (IH _ Hlt (String (pretty_N_char (x `mod` 10)) "")).
    rewrite string_app_assoc. reflexivity.
Qed.

(** A number below ten is printed as its digit. *)
Lemma pretty_N_digit (n : N) : (n < 10)%N → pretty n = String (pretty_N_char n) "".
Proof.
  intros Hn. unfold pretty, pretty_N. destruct (decide (n = 0%N)) as [->|Hnz]; [reflexivity|].
  rewrite pretty_N_go_step by lia.
  rewrite N.div_small, N.mod_small by lia. apply pretty_N_go_0.
Qed.

(** A number from ten on is printed as its tens followed by its last digit. *)
Lemma pretty_N_snoc (n : N) :
  (10 ≤ n)%N →
  pretty n = pretty (n `div` 10)%N +:+ String (pretty_N_char (n `mod` 10)) "".
Proof.
  intros Hn. unfold pretty, pretty_N.
  destruct (decide (n = 0%N)) as [->|_]; [lia|].
  assert (0 < n `div` 10)%N by (apply N.div_str_pos; lia).
  destruct (decide (n `div` 10 = 0)%N) as [Hz|_]; [lia|].
  rewrite pretty_N_go_step by lia. apply pretty_N_go_app.
Qed.

(** The digits [toFixed(2)] prints for the hundredths [n]: the whole part,
    the point, and exactly two digits. *)
Lemma toFixed2_digits (n : N) :
  let m := pretty n in
  let m := if (String.length m <=? 2)%nat
           then String.concat "" (replicate (3 - String.length m) "0") +:+ m else m in
  substring 0 (String.length m - 2) m +:+ "." +:+ substring (String.length m - 2) 2 m =
  pretty (n `div` 100)%N +:+ "." +:+
    String (pretty_N_char ((n `div` 10) `mod` 10)) (String (pretty_N_char (n `mod` 10)) "").
Proof.
  cbn zeta.
  assert (n < 10 ∨ 10 ≤ n < 100 ∨ 100 ≤ n)%N as [Hn | [Hn | Hn]] by lia.
  - rewrite (pretty_N_digit n Hn).
    rewrite (N.div_small n 100), (N.div_small n 10), (N.mod_small n 10) by lia.
    generalize (pretty_N_char n). intros c. vm_compute. reflexivity.
  - rewrite (pretty_N_snoc n) by lia.
    rewrite (pretty_N_digit (n `div` 10)%N)
      by (apply N.Div0.div_lt_upper_bound; lia).
    rewrite (N.div_small n 100) by lia.
    rewrite (N.mod_small (n `div` 10) 10) by (apply N.Div0.div_lt_upper_bound; lia).
    generalize (pretty_N_char (n `div` 10)), (pretty_N_char (n `mod` 10)).
    intros c1 c0. vm_compute. reflexivity.
  - rewrite (pretty_N_snoc n) by lia.
    rewrite (pretty_N_snoc (n `div` 10)%N)
      by (apply N.div_le_lower_bound; lia).
    rewrite N.Div0.div_div. change (10 * 10)%N with 100%N.
    set (whole := pretty (n `div` 100)%N).
    set (d1 := pretty_N_char ((n `div` 10) `mod` 10)).
    set (d0 := pretty_N_char (n `mod` 10)).
    rewrite string_app_assoc. rewrite append_cons, append_nil.
    assert (Hlen : String.length (whole +:+ String d1 (String d0 "")) =
                   (String.length whole + 2)%nat)
      by (rewrite length_app_string; reflexivity).
    rewrite Hlen.
    destruct (String.length whole + 2 <=? 2)%nat eqn:Hle.
    { apply Nat.leb_le in Hle.
      assert (String.length whole = 0%nat) as Hzero by lia.
      unfold whole, pretty, pretty_N in Hzero.
      destruct (decide (n `div` 100 = 0)%N); [discriminate Hzero|].
      assert (Hpos : (0 < n `div` 100)%N) by (apply N.div_str_pos; lia).
      rewrite (pretty_N_go_step _ _ Hpos), pretty_N_go_app, length_app_string in Hzero.
      cbn in Hzero. lia. }
    rewrite Hlen. replace (String.length whole + 2 - 2)%nat with (String.length whole) by lia.
    rewrite substring_0_app.
    pose proof (substring_length_app whole (String d1 (String d0 ""))) as Hsub.
    cbn [String.length] in Hsub. rewrite Hsub. reflexivity.
Qed.

Lemma hundredths_quotient (size : Z) :
  Qfloor (Qplus (Qmult (Qdiv (inject_Z size) (inject_Z 1024)) (inject_Z 100)) (1 # 2)) =
    (100 * size + 512) / 1024.
Proof.
  rewrite Zdiv_Qdiv. apply Qfloor_comp.
  unfold Qeq, Qdiv, Qplus, Qmult, Qinv, inject_Z. simpl. lia.
Qed.

(** Up to [2^53] an integer is a double. *)
Lemma roundToDouble_safe (z : Z) : 0 ≤ z < 2 ^ 53 → roundToDouble z = Some z.
Proof.
  intros [Hlo Hhi]. unfold roundToDouble.
  assert (Hlog : Z.log2 z - 52 ≤ 0).
  { destruct (Z.eq_dec z 0) as [->|Hnz]; [cbn; lia|].
    assert (Z.log2 z < 53) by (apply Z.log2_lt_pow2; lia). lia. }
  apply Z.leb_le in Hlog. rewrite Hlog. reflexivity.
Qed.

Lemma AudioSize_safe (size : Z) :
  0 ≤ size < 2 ^ 53 →
  AudioSize (Some size) =
    let m := pretty (Z.to_N ((100 * size + 512) / 1024)) in
    let m := if (String.length m <=? 2)%nat
             then String.concat "" (replicate (3 - String.length m) "0") +:+ m
             else m in
    substring 0 (String.length m - 2) m +:+ "." +:+
      substring (String.length m - 2) 2 m.
Proof.
  intros Hs. unfold AudioSize, Number_ofInteger. cbn [default from_option id].
  rewrite Z.abs_eq by lia. rewrite (roundToDouble_safe size Hs).
  replace (Z.sgn size * size) with size by nia.
  unfold Number_div1024, toFixed2.
  assert (Hpos : Qle_bool (inject_Z 0) (Qdiv (inject_Z size) (inject_Z 1024)) = true).
  { unfold Qle_bool, Qdiv, Qmult, Qinv, inject_Z. cbn. apply Z.leb_le. lia. }
  assert (Hsmall : Qle_bool (inject_Z (10 ^ 21)) (Qdiv (inject_Z size) (inject_Z 1024)) = false).
  { unfold Qle_bool, Qdiv, Qmult, Qinv, inject_Z.
    cbn [Qnum Qden Z.mul Pos.mul]. apply Z.leb_gt.
    change (2 ^ 53) with 9007199254740992 in Hs.
    change (10 ^ 21) with 1000000000000000000000. lia. }
  rewrite Hpos. cbn [negb]. rewrite Hsmall, hundredths_quotient. reflexivity.
Qed.

(** X1: for a size that is a non-negative integer below [2^53] (where
    every integer is a JS number), [AudioSize] prints the size in kilobytes
    to the nearest hundredth, a tie going up: the whole part, a point and
    exactly two digits.  A [null] size is printed as zero, and a negative
    size as the minus sign followed by what is printed for its absolute
    value. *)
Theorem AudioSize_format (size : Z) :
  0 ≤ size < 2 ^ 53 →
  let n := Z.to_N ((100 * size + 512) / 1024) in
  AudioSize (Some size) =
    pretty (n `div` 100)%N +:+ "." +:+
      String (pretty_N_char ((n `div` 10) `mod` 10))
        (String (pretty_N_char (n `mod` 10)) "") ∧
  1024 * Z.of_N n - 512 ≤ 100 * size < 1024 * Z.of_N n + 512 ∧
  AudioSize None = "0.00" ∧
  (0 < size → AudioSize (Some (- size)) = "-" +:+ AudioSize (Some size)).
Proof.
  intros Hsize n.
  split; [|split; [|split]].
  - rewrite (AudioSize_safe size Hsize). apply toFixed2_digits.
  - unfold n. rewrite Z2N.id by (apply Z.div_pos; lia).
    pose proof (Z.div_mod (100 * size + 512) 1024 ltac:(lia)).
    pose proof (Z.mod_pos_bound (100 * size + 512) 1024 ltac:(lia)). lia.
  - vm_compute. reflexivity.
  - intros Hp. rewrite (AudioSize_safe size Hsize).
    unfold AudioSize, Number_ofInteger. cbn [default from_option id].
    rewrite Z.abs_opp, Z.abs_eq by lia. rewrite (roundToDouble_safe size Hsize).
    replace (Z.sgn (- size) * size) with (- size) by nia.
    unfold Number_div1024, toFixed2.
    assert (Hneg : Qle_bool (inject_Z 0) (Qdiv (inject_Z (- size)) (inject_Z 1024)) = false).
    { unfold Qle_bool, Qdiv, Qmult, Qinv, inject_Z. cbn. apply Z.leb_gt. lia. }
    assert (Hsmall : Qle_bool (inject_Z (10 ^ 21))
                       (Qopp (Qdiv (inject_Z (- size)) (inject_Z 1024))) = false).
    { unfold Qle_bool, Qdiv, Qmult, Qinv, Qopp, inject_Z.
      cbn [Qnum Qden Z.mul Pos.mul]. apply Z.leb_gt.
      change (2 ^ 53) with 9007199254740992 in Hsize.
      change (10 ^ 21) with 1000000000000000000000. lia. }
    rewrite Hneg. cbn [negb]. rewrite Hsmall.
    assert (Hq : Qfloor (Qplus (Qmult (Qopp (Qdiv (inject_Z (- size)) (inject_Z 1024)))
                                  (inject_Z 100)) (1 # 2)) =
                 (100 * size + 512) / 1024).
    { rewrite Zdiv_Qdiv. apply Qfloor_comp.
      unfold Qeq, Qdiv, Qplus, Qmult, Qinv, Qopp, inject_Z. simpl. lia. }
    rewrite Hq. reflexivity.
Qed.

Lemma AudioSize_format_witness :
  0 ≤ 1536 < 2 ^ 53 ∧ AudioSize (Some 1536) = "1.50" ∧
  AudioSize (Some (- (1536))) = "-1.50".
Proof.
  assert (Hb : 0 ≤ 1536 < 2 ^ 53) by (split; [lia | reflexivity]).
  split; [exact Hb|].
  destruct (AudioSize_format 1536 Hb) as (H1 & _ & _ & H2).
  split; [rewrite H1; vm_compute; reflexivity|].
  rewrite (H2 ltac:(lia)), H1. vm_compute. reflexivity.
Defined.

(** ** The recorder a granted start makes *)

(** A granted start whose level is a key of the table: the stream, the
    recorder with its options and handlers, [start], and the flag. *)
Lemma step_granted `{Platform} (w : World) (k : nat) (sc : Scope) (setting : Setting) :
  pendingGetUserMedia (host w) !! k = Some sc →
  settingOf (sc_compressionLevel sc) = Some setting →
  let w' := step (deviceGranted k noFault) w in
  let mime := supportedMimeTypeFor (mimeType setting) in
  recorders (host w') = recorders (host w) ++
    [ {| mr_state := recording;
         mr_stream := length (streams (host w));
         mr_options :=
           {| opt_mimeType := mime;
              opt_audioBitsPerSecond :=
                if String.eqb (sc_compressionLevel sc) "none" then None
                else match audioBitsPerSecond setting with
                     | Some b => if truthyNumber b then Some b else None
                     | None => None
                     end |};
         mr_handlers := Some {| h_scope := sc; h_mimeType := mime |} |} ] ∧
  streams (host w') = streams (host w) ++ [true] ∧
  streamRef (refs w') = Some (length (streams (host w))) ∧
  mediaRecorderRef (refs w') = Some (length (recorders (host w))) ∧
  audioChunksRef (refs w') = audioChunksRef (refs w) ∧
  isRecording (hooks w') = true ∧
  error (hooks w') = error (hooks w) ∧
  pendingGetUserMedia (host w') = delete k (pendingGetUserMedia (host w)) ∧
  objectURLs (host w') = objectURLs (host w) ∧
  delivered w' = delivered w.
Proof.
  intros Hk Hset w' mime. subst w'.
  destruct (handle_normal (deviceGranted k noFault) w) as [w1 Hh].
  rewrite (step_unfold _ _ _ Hh).
  destruct (commit_frame (scopeOf w) w1)
    as (_ & -> & -> & -> & _ & _ & -> & -> & -> & _ & -> & -> & -> & ->).
  revert Hh. unfold handle. unfold_m. cbn. rewrite Hk. cbn.
  unfold getSupportedMimeType. rewrite Hset. cbn.
  destruct (String.eqb (sc_compressionLevel sc) "none"); cbn;
    intros [= <-]; cbn; rewrite !snoc_update; cbn; repeat split.
Qed.

Lemma settingOf_level (level : CompressionLevel) :
  settingOf (levelName level) =
    Some {| mimeType := Some (levelFormat level);
            audioBitsPerSecond := levelBitrate level |} ∧
  String.eqb (levelName level) "none" =
    match level with none => true | _ => false end.
Proof. destruct level; split; reflexivity. Qed.

(** A key inherited from [Object.prototype] reads as an object without
    [mimeType] and [audioBitsPerSecond]. *)
Lemma settingOf_inherited (key : string) :
  key ∈ objectPrototypeKeys →
  settingOf key = Some {| mimeType := None; audioBitsPerSecond := None |} ∧
  String.eqb key "none" = false.
Proof.
  intros Hin. apply list_elem_of_In in Hin. cbn in Hin.
  repeat destruct Hin as [<- | Hin]; try (split; reflexivity). contradiction.
Qed.

(** X2: when the device is granted and nothing throws, the recorder is made on
    the new stream with the options the table gives the level: the format
    the resolver picks for the level's preferred one, and the level's
    bitrate, none for [none].  It is recording, it is the one held in
    [mediaRecorderRef], and the component is recording.  A level that is a
    property name inherited from [Object.prototype] does not make the start
    fail: the recorder is asked for the first supported format of the
    fallback list and no bitrate. *)
Theorem granted_recorder_options `{Platform} (w : World) (k : nat) (sc : Scope) :
  pendingGetUserMedia (host w) !! k = Some sc →
  let w' := step (deviceGranted k noFault) w in
  let made mime bitrate :=
    {| mr_state := recording;
       mr_stream := length (streams (host w));
       mr_options := {| opt_mimeType := mime; opt_audioBitsPerSecond := bitrate |};
       mr_handlers := Some {| h_scope := sc; h_mimeType := mime |} |} in
  (∀ level, sc_compressionLevel sc = levelName level →
     recorders (host w') = recorders (host w) ++
       [made (resolverSpec (levelFormat level)) (levelBitrate level)]) ∧
  (sc_compressionLevel sc ∈ objectPrototypeKeys →
     recorders (host w') = recorders (host w) ++ [made (firstSupported options) None]) ∧
  ((∃ level, sc_compressionLevel sc = levelName level) ∨
   sc_compressionLevel sc ∈ objectPrototypeKeys →
     streams (host w') = streams (host w) ++ [true] ∧
     streamRef (refs w') = Some (length (streams (host w))) ∧
     mediaRecorderRef (refs w') = Some (length (recorders (host w))) ∧
     isRecording (hooks w') = true ∧
     error (hooks w') = error (hooks w) ∧
     delivered w' = delivered w).
Proof.
  intros Hk w' made. subst w' made. cbn beta. split; [|split].
  - intros level Hlevel.
    destruct (settingOf_level level) as [Hset Hnone]. rewrite <- Hlevel in Hset, Hnone.
    destruct (step_granted w k sc _ Hk Hset) as (-> & _).
    rewrite Hnone. cbn [mimeType audioBitsPerSecond].
    rewrite supportedMimeTypeFor_spec by (destruct level; discriminate).
    destruct level; reflexivity.
  - intros Hin. destruct (settingOf_inherited _ Hin) as [Hset Hnone].
    destruct (step_granted w k sc _ Hk Hset) as (-> & _).
    rewrite Hnone. reflexivity.
  - intros Hkey.
    assert (Hset : ∃ setting, settingOf (sc_compressionLevel sc) = Some setting).
    { destruct Hkey as [[level Hlevel] | Hin].
      - rewrite Hlevel. eexists. exact (proj1 (settingOf_level level)).
      - eexists. exact (proj1 (settingOf_inherited _ Hin)). }
    destruct Hset as [setting Hset].
    destruct (step_granted w k sc _ Hk Hset)
      as (_ & Hst & Hsr & Hmr & _ & Hrec & Herr & _ & _ & Hd).
    auto 10.
Qed.

Lemma granted_recorder_options_witness :
  let p := {| onDataRecorded := true; duration := None;
                 compressionLevel := Some "high" |} in
  let w := @step webmPlatform (click 1000) (@mount webmPlatform p) in
  pendingGetUserMedia (host w) !! 0%nat = Some (scopeOf (@mount webmPlatform p)) ∧
  mr_options <$> recorders (host (@step webmPlatform (deviceGranted 0 noFault) w)) =
    [ {| opt_mimeType := "audio/webm"; opt_audioBitsPerSecond := Some 32000 |} ].
Proof.
  intros p w. split; [reflexivity|].
  rewrite (proj1 (@granted_recorder_options webmPlatform w 0%nat
                    (scopeOf (@mount webmPlatform p)) eq_refl)
             high eq_refl).
  vm_compute. reflexivity.
Defined.

(** ** The formats asked of the recorder *)

Lemma firstSupported_supported `{Platform} (types : list string) :
  isTypeSupported (firstSupported types) = true ∨
  firstSupported types = "" ∧ Forall (λ t, isTypeSupported t = false) types.
Proof.
  induction types as [|t rest IH]; cbn; [auto|].
  destruct (isTypeSupported t) eqn:Ht; [auto|].
  destruct IH as [IH | [IH1 IH2]]; auto.
Qed.

(** What [getSupportedMimeType] returns is a format the platform reports
    as supported, or the empty string when it supports none of the list. *)
Lemma getSupportedMimeType_supported `{Platform} (key m : string) :
  getSupportedMimeType key = Normal m →
  isTypeSupported m = true ∨
  m = "" ∧ Forall (λ t, isTypeSupported t = false) options.
Proof.
  unfold getSupportedMimeType. destruct (settingOf key) as [setting|]; [|discriminate].
  intros [= <-]. unfold supportedMimeTypeFor.
  destruct (mimeType setting) as [preferred|]; [|apply firstSupported_supported].
  destruct (truthyString preferred && isTypeSupported preferred) eqn:Hp;
    [|apply firstSupported_supported].
  apply andb_prop in Hp as [_ Hp]. auto.
Qed.

Lemma optionsOk_withState `{Platform} (r : MediaRecorder) (s : RecorderState) :
  optionsOk r → optionsOk (mr_withState s r).
Proof. unfold optionsOk. cbn. auto. Qed.

Ltac options_goal :=
  cbn; rewrite ?snoc_update; auto;
  repeat match goal with
  | |- Forall _ (_ ++ [_]) =>
      apply Forall_app; split; [|apply Forall_singleton; cbn]
  | |- Forall optionsOk (alter _ _ _) =>
      apply Forall_alter_lookup; [|intros ? ? ?]
  | |- optionsOk (mr_withState _ _) => apply optionsOk_withState
  | |- optionsOk (mr_withHandlers _ _) =>
      unfold optionsOk; cbn; split; [eauto | intros ? [= <-]; reflexivity]
  | |- optionsOk {| mr_state := _ |} =>
      unfold optionsOk; cbn; split; [eauto | intros ? [= <-]; reflexivity]
  end; auto.

Lemma optionsOk_handle `{Platform} (ev : Event) (w w1 : World) :
  Forall optionsOk (recorders (host w)) → handle ev w = (Normal (), w1) →
  Forall optionsOk (recorders (host w1)).
Proof.
  intros Hr. destruct ev; unfold handle; unfold_m;
    case_m; intros [= <-]; options_goal.
Qed.

Lemma optionsOk_reachable `{Platform} (p : VoiceRecorderProps) (w : World) :
  Reachable p w → Forall optionsOk (recorders (host w)).
Proof.
  induction 1 as [|w ev _ IH]; [constructor|].
  destruct (handle_normal ev w) as [w1 Hh].
  rewrite (step_unfold _ _ _ Hh).
  destruct (commit_frame (scopeOf w) w1)
    as (_ & _ & _ & _ & _ & _ & _ & _ & _ & _ & -> & _).
  exact (optionsOk_handle ev w w1 IH Hh).
Qed.

(** X3: whatever happened before, every recorder the component has made was
    asked for a format the platform reports as supported, or for none
    (the empty string) when the platform supports no format of the
    fallback list; and its handlers label the recording with that same
    format. *)
Theorem recorders_request_supported_types `{Platform} (p : VoiceRecorderProps)
    (w : World) (i : nat) (r : MediaRecorder) :
  Reachable p w → recorders (host w) !! i = Some r →
  let m := opt_mimeType (mr_options r) in
  (isTypeSupported m = true ∨
   m = "" ∧ Forall (λ t, isTypeSupported t = false) options) ∧
  (∀ h, mr_handlers r = Some h → h_mimeType h = m).
Proof.
  intros Hreach Hr m. subst m.
  pose proof (Forall_lookup_1 _ _ _ _ (optionsOk_reachable p w Hreach) Hr)
    as [[level Hlevel] Hh].
  split; [exact (getSupportedMimeType_supported _ _ Hlevel) | exact Hh].
Qed.

Lemma recorders_request_supported_types_witness :
  let p := {| onDataRecorded := true; duration := None;
              compressionLevel := Some "none" |} in
  let w := @run webmPlatform [click 1000; deviceGranted 0 noFault]
             (@mount webmPlatform p) in
  ∃ r, recorders (host w) !! 0%nat = Some r ∧
       opt_mimeType (mr_options r) = "audio/webm" ∧
       @isTypeSupported webmPlatform (opt_mimeType (mr_options r)) = true.
Proof.
  intros p w.
  assert (Hreach : @Reachable webmPlatform p w).
  { unfold w, run. cbn [foldl].
    do 2 apply (@reach_step webmPlatform). apply (@reach_mount webmPlatform). }
  eexists. split; [vm_compute; reflexivity|]. split; [reflexivity|].
  destruct (@recorders_request_supported_types webmPlatform p w 0%nat _ Hreach eq_refl)
    as [[Hs | [Hs _]] _]; [exact Hs | discriminate Hs].
Defined.

(** ** What the caller has been handed *)

Lemma orElse_nonempty (a b : string) : b ≠ "" → orElse a b ≠ "".
Proof.
  intros Hb. unfold orElse, truthyString.
  destruct (String.eqb_spec a ""); cbn; assumption.
Qed.

Lemma concat_chunks_nonempty (chunks : list Blob) :
  Forall (λ b, 0 < blobSize b) chunks → chunks ≠ [] →
  concat (map blobBytes chunks) ≠ [].
Proof.
  intros Hall Hne. destruct Hall as [|b l Hb _]; [contradiction|].
  cbn. unfold blobSize in Hb. destruct (blobBytes b); [cbn in Hb; lia | discriminate].
Qed.

Lemma finalArtifacts_snoc (l : list Artifact) (a : Artifact) :
  finalArtifacts (l ++ [a]) =
    finalArtifacts l ++ if art_isRecording a then [] else [a].
Proof.
  unfold finalArtifacts. rewrite List.filter_app. cbn.
  destruct (art_isRecording a); reflexivity.
Qed.

Lemma seq_snoc (n : nat) : seq 0 (S n) = seq 0 n ++ [n].
Proof. rewrite <- Nat.add_1_r, seq_app. reflexivity. Qed.

Lemma DeliveredInv_mount `{Platform} (p : VoiceRecorderProps) : DeliveredInv (mount p).
Proof. split; cbn; constructor. Qed.

Lemma recorderOk_lookup `{Platform} (w : World) (mr : nat) (r : MediaRecorder)
    (h : Handlers) :
  ClosureInv w → recorders (host w) !! mr = Some r → mr_handlers r = Some h →
  sc_isRecording (h_scope h) = false ∧
  getSupportedMimeType (sc_compressionLevel (h_scope h)) = Normal (h_mimeType h).
Proof.
  intros Hinv Hr Hh.
  pose proof (Forall_lookup_1 _ _ _ _ (inv_recorders _ Hinv) Hr) as Hok.
  unfold recorderOk in Hok. rewrite Hh in Hok. exact Hok.
Qed.

Lemma length_positive {A} (l : list A) : (0 <? Z.of_nat (length l)) = true → l ≠ [].
Proof. intros Hl ->. discriminate Hl. Qed.

Lemma orElse_supported `{Platform} (m : string) :
  isTypeSupported m = true ∨ m = "" ∧ Forall (λ t, isTypeSupported t = false) options →
  isTypeSupported (orElse m "audio/wav") = true ∨ orElse m "audio/wav" = "audio/wav".
Proof.
  intros Hm. unfold orElse. destruct (truthyString m) eqn:Ht; [|right; reflexivity].
  destruct Hm as [Hm | [-> _]]; [left; exact Hm | discriminate Ht].
Qed.

Arguments finalArtifacts : simpl never.
Arguments provisionalArtifacts : simpl never.

Lemma DeliveredInv_handle `{Platform} (ev : Event) (w w1 : World) :
  ClosureInv w → DeliveredInv w → handle ev w = (Normal (), w1) → DeliveredInv w1.
Proof.
  intros Hclo [Hc Hf Hu Hw].
  destruct ev; unfold handle; unfold_m; case_m; intros [= <-].
  all: try (split; cbn; assumption).
  all: try match goal with
       | Hr : recorders (host _) !! _ = Some ?r, Hh : mr_handlers ?r = Some ?h |- _ =>
           destruct (recorderOk_lookup _ _ _ _ Hclo Hr Hh) as [Hflag Hmime]
       end.
  all: split; cbn; rewrite ?finalArtifacts_snoc; cbn; rewrite ?Hflag, ?app_nil_r;
    rewrite ?fmap_app, ?length_app, ?Nat.add_1_r, ?seq_snoc, ?fmap_app; cbn;
    rewrite ?Hf, ?Hu; try assumption; try reflexivity; try constructor.
  all: repeat match goal with
       | |- Forall _ (_ ++ [_]) =>
           apply Forall_app; split; [assumption | apply Forall_singleton]
       | Hd : (0 <? blobSize ?d) = true |- 0 < blobSize ?d => apply Z.ltb_lt; exact Hd
       | |- artifactOk provisional => reflexivity
       | |- artifactOk _ => unfold artifactOk; cbn; split; [|split; [|split; [|split]]]
       | Hm : getSupportedMimeType _ = Normal ?m
         |- isTypeSupported (orElse ?m _) = true ∨ _ =>
           exact (orElse_supported m (getSupportedMimeType_supported _ _ Hm))
       | |- blobBytes (newBlob _ _) ≠ [] =>
           unfold newBlob; cbn; apply concat_chunks_nonempty;
             [assumption | apply length_positive; assumption]
       | |- Some _ = Some _ => reflexivity
       | |- _ = blobType (newBlob _ _) => reflexivity
       | |- orElse _ _ ≠ "" => apply orElse_nonempty; discriminate
       end.
Qed.

Lemma DeliveredInv_reachable `{Platform} (p : VoiceRecorderProps) (w : World) :
  Reachable p w → DeliveredInv w.
Proof.
  induction 1 as [|w ev Hreach IH]; [apply DeliveredInv_mount|].
  destruct (handle_normal ev w) as [w1 Hh].
  rewrite (step_unfold _ _ _ Hh).
  destruct (DeliveredInv_handle ev w w1 (ClosureInv_reachable p w Hreach) IH Hh)
    as [Hc Hf Hu Hw].
  destruct (commit_frame (scopeOf w) w1)
    as (_ & Hd & _ & _ & _ & _ & _ & Hch & _ & _ & _ & _ & Hob & _).
  split; rewrite ?Hd, ?Hch, ?Hob; assumption.
Qed.

(** X4: whatever happened before, every final artifact the caller was handed
    is complete: its blob is not empty, its size is the blob's size in KB
    (rounded), its type is the blob's type and is a format the platform
    supports or the default [audio/wav].  The final artifacts are, in the
    order handed over, exactly the blobs that were given an object URL; the
    [i]-th carries the URL made [i]-th, so no two share a URL. *)
Theorem delivered_artifacts_wellformed `{Platform} (p : VoiceRecorderProps) (w : World) :
  Reachable p w →
  (∀ a, a ∈ delivered w → art_isRecording a = false →
        blobBytes (art_blob a) ≠ [] ∧
        art_size a = Some (fileSizeKB (art_blob a)) ∧
        art_type a = blobType (art_blob a) ∧
        (isTypeSupported (art_type a) = true ∨ art_type a = "audio/wav")) ∧
  art_blob <$> finalArtifacts (delivered w) = objectURLs (host w) ∧
  (∀ i a, finalArtifacts (delivered w) !! i = Some a →
          art_url a = "blob:" +:+ pretty i ∧ objectURLs (host w) !! i = Some (art_blob a)) ∧
  NoDup (art_url <$> finalArtifacts (delivered w)).
Proof.
  intros Hreach. destruct (DeliveredInv_reachable p w Hreach) as [_ Hf Hu Hw].
  split; [|split; [|split]].
  - intros a Ha Hflag.
    pose proof (proj1 (Forall_forall _ _) Hw a Ha) as Hok.
    unfold artifactOk in Hok. rewrite Hflag in Hok. tauto.
  - exact Hf.
  - intros i a Hi. split.
    + assert (Hurl : (art_url <$> finalArtifacts (delivered w)) !! i = Some (art_url a))
        by (rewrite list_lookup_fmap, Hi; reflexivity).
      rewrite Hu, list_lookup_fmap in Hurl.
      destruct (seq 0 (length (objectURLs (host w))) !! i) as [j|] eqn:Hj;
        [|discriminate Hurl].
      apply lookup_seq in Hj as [-> _]. injection Hurl as <-. reflexivity.
    + rewrite <- Hf, list_lookup_fmap, Hi. reflexivity.
  - rewrite Hu. apply NoDup_fmap_2; [|apply NoDup_seq].
    intros i j Hij. apply String.app_inj in Hij. exact (inj pretty _ _ Hij).
Qed.

Lemma delivered_artifacts_wellformed_witness :
  let w := @run webmPlatform
             [click 1000; deviceGranted 0 noFault; dataAvailable 0 (bytesOf 3); click 4000;
              stopped 0; click 5000; deviceGranted 0 noFault; dataAvailable 1 (bytesOf 2);
              click 6000; stopped 1]
             (@mount webmPlatform defaultProps) in
  art_url <$> delivered w = [""; "blob:0"; ""; "blob:1"] ∧
  NoDup (art_url <$> finalArtifacts (delivered w)).
Proof.
  intros w.
  assert (Hreach : @Reachable webmPlatform defaultProps w).
  { unfold w, run. cbn [foldl].
    do 10 apply (@reach_step webmPlatform). apply (@reach_mount webmPlatform). }
  split; [vm_compute; reflexivity|].
  exact (proj2 (proj2 (proj2
           (@delivered_artifacts_wellformed webmPlatform defaultProps w Hreach)))).
Defined.

(** ** A whole recording *)

(** On a platform with [mediaDevices] the mount effects change nothing:
    the component is supported throughout. *)
Lemma supported_reachable `{Platform} (p : VoiceRecorderProps) (w : World) :
  hasMediaDevices = true → Reachable p w → isSupported (hooks w) = true.
Proof.
  intros Hdev. induction 1 as [|w ev _ IH]; [reflexivity|].
  destruct (handle_normal ev w) as [w1 Hh].
  rewrite (step_unfold _ _ _ Hh).
  destruct (commit_frame (scopeOf w) w1) as (_ & _ & _ & _ & _ & -> & _).
  revert Hh. destruct ev; unfold handle; unfold_m; rewrite ?Hdev; case_m;
    intros [= <-]; cbn; congruence.
Qed.

(** On a platform without [mediaDevices] every start ends in the [catch]
    before it reaches the device: nothing is ever pending, made or
    counted down, only provisional artifacts are handed over, and once the
    component is marked unsupported its error is the fixed message. *)
Lemma unsupported_reachable `{Platform} (p : VoiceRecorderProps) (w : World) :
  hasMediaDevices = false → Reachable p w →
  isRecording (hooks w) = false ∧
  pendingGetUserMedia (host w) = [] ∧ recorders (host w) = [] ∧
  streams (host w) = [] ∧ intervals (host w) = [] ∧
  (isSupported (hooks w) = false → error (hooks w) = Some unsupportedMessage) ∧
  Forall (λ a, a = provisional) (delivered w).
Proof.
  intros Hdev.
  induction 1 as [|w ev _ (Hrec & Hpe & Hrs & Hst & Hin & Herr & Hd)].
  - cbn. repeat split; [discriminate | constructor].
  - destruct (handle_normal ev w) as [w1 Hh].
    rewrite (step_unfold _ _ _ Hh).
    assert (Hw1 : isRecording (hooks w1) = false ∧
                  pendingGetUserMedia (host w1) = [] ∧ recorders (host w1) = [] ∧
                  streams (host w1) = [] ∧ intervals (host w1) = [] ∧
                  (isSupported (hooks w1) = false →
                   error (hooks w1) = Some unsupportedMessage) ∧
                  Forall (λ a, a = provisional) (delivered w1)).
    { revert Hh. destruct ev; unfold handle; unfold_m; cbn;
        rewrite ?Hdev, ?Hpe, ?Hrs, ?Hin; cbn; rewrite ?lookup_nil; cbn;
        case_m; intros [= <-]; cbn;
        rewrite ?Hpe, ?Hrs, ?Hst, ?Hin;
        repeat match goal with |- _ ∧ _ => split end;
        try reflexivity; try assumption; try congruence;
        try (apply Forall_app; split; [assumption | repeat constructor]);
        try (intros _; apply Herr; reflexivity). }
    destruct Hw1 as (Hrec1 & Hpe1 & Hrs1 & Hst1 & Hin1 & Herr1 & Hd1).
    destruct (commit_frame (scopeOf w) w1)
      as (_ & Hcd & Hcr & Hce & _ & Hcs & _ & _ & _ & _ & Hcrs & Hcst & _ & Hcpe).
    rewrite Hcd, Hcr, Hce, Hcs, Hcrs, Hcst, Hcpe.
    repeat match goal with |- _ ∧ _ => split end; try assumption.
    unfold_commit. cbn. rewrite Hrec, Hrec1. cbn.
    destruct (default 60 (duration (props w)) =? default 60 (duration (props w1)));
      cbn; [exact Hin1|].
    destruct (timerRef (refs w1)); cbn; rewrite Hin1; reflexivity.
Qed.

(** A click while idle, field by field. *)
Lemma click_start_world `{Platform} (w : World) (now : Z) :
  hasMediaDevices = true → isSupported (hooks w) = true →
  isRecording (hooks w) = false →
  let w1 := step (click now) w in
  props w1 = props w ∧
  delivered w1 =
    delivered w ++ (if onDataRecorded (props w) then [provisional] else []) ∧
  isRecording (hooks w1) = false ∧
  error (hooks w1) = None ∧
  mediaRecorderRef (refs w1) = mediaRecorderRef (refs w) ∧
  audioChunksRef (refs w1) = [] ∧
  streamRef (refs w1) = streamRef (refs w) ∧
  startTimeRef (refs w1) = Some now ∧
  recorders (host w1) = recorders (host w) ∧
  streams (host w1) = streams (host w) ∧
  objectURLs (host w1) = objectURLs (host w) ∧
  pendingGetUserMedia (host w1) = pendingGetUserMedia (host w) ++ [scopeOf w].
Proof.
  intros Hdev Hsup Hrec w1. subst w1.
  destruct (handle_normal (click now) w) as [w1 Hh].
  rewrite (step_unfold _ _ _ Hh).
  destruct (commit_frame (scopeOf w) w1)
    as (-> & -> & -> & -> & _ & _ & -> & -> & -> & -> & -> & -> & -> & ->).
  revert Hh. unfold handle. unfold_m. cbn. rewrite Hsup, Hrec, Hdev. cbn.
  destruct (onDataRecorded (props w)); cbn; intros [= <-]; cbn;
    rewrite ?app_nil_r; repeat split; exact Hrec.
Qed.

(** A click while recording, with a recording recorder in
    [mediaRecorderRef]: the recorder is told to stop. *)
Lemma click_stop_world `{Platform} (w : World) (now : Z) (mr : nat) (r : MediaRecorder) :
  isSupported (hooks w) = true → isRecording (hooks w) = true →
  mediaRecorderRef (refs w) = Some mr →
  recorders (host w) !! mr = Some r → mr_state r = recording →
  let w1 := step (click now) w in
  props w1 = props w ∧
  delivered w1 = delivered w ∧
  isRecording (hooks w1) = false ∧
  error (hooks w1) = error (hooks w) ∧
  mediaRecorderRef (refs w1) = mediaRecorderRef (refs w) ∧
  audioChunksRef (refs w1) = audioChunksRef (refs w) ∧
  streamRef (refs w1) = streamRef (refs w) ∧
  recorders (host w1) = alter (mr_withState stopping) mr (recorders (host w)) ∧
  streams (host w1) = streams (host w) ∧
  objectURLs (host w1) = objectURLs (host w) ∧
  pendingGetUserMedia (host w1) = pendingGetUserMedia (host w).
Proof.
  intros Hsup Hrec Hmr Hr Hstate w1. subst w1.
  destruct (handle_normal (click now) w) as [w1 Hh].
  rewrite (step_unfold _ _ _ Hh).
  destruct (commit_frame (scopeOf w) w1)
    as (-> & -> & -> & -> & _ & _ & -> & -> & -> & _ & -> & -> & -> & ->).
  revert Hh. unfold handle. unfold_m. cbn. rewrite Hsup, Hrec, Hmr. cbn.
  rewrite Hr, Hstate. cbn.
  destruct (timerRef (refs w)); cbn; intros [= <-]; cbn; repeat split;
    assumption.
Qed.

(** The [stop] event of a started recorder, with chunks, a callback and a
    stream in [streamRef]. *)
Lemma stopped_world `{Platform} (w : World) (mr : nat) (r : MediaRecorder)
    (h : Handlers) (s : nat) :
  recorders (host w) !! mr = Some r → mr_state r ≠ inactive →
  mr_handlers r = Some h →
  audioChunksRef (refs w) ≠ [] → sc_onDataRecorded (h_scope h) = true →
  streamRef (refs w) = Some s →
  let assembled := newBlob (audioChunksRef (refs w)) (orElse (h_mimeType h) "audio/wav") in
  let w1 := step (stopped mr) w in
  props w1 = props w ∧
  delivered w1 = delivered w ++
    [ {| art_blob := assembled;
         art_url := "blob:" +:+ pretty (length (objectURLs (host w)));
         art_type := orElse (h_mimeType h) "audio/wav";
         art_isRecording := sc_isRecording (h_scope h);
         art_size := Some (fileSizeKB assembled) |} ] ∧
  isRecording (hooks w1) = isRecording (hooks w) ∧
  error (hooks w1) = error (hooks w) ∧
  recorders (host w1) = alter (mr_withState inactive) mr (recorders (host w)) ∧
  streams (host w1) = <[s := false]> (streams (host w)) ∧
  objectURLs (host w1) = objectURLs (host w) ++ [assembled] ∧
  pendingGetUserMedia (host w1) = pendingGetUserMedia (host w).
Proof.
  intros Hr Hs Hh Hc Hcb Hst assembled w1. subst w1 assembled.
  rewrite (step_stopped w mr r h Hr Hs Hh).
  destruct (commit_frame (scopeOf w)
              (exec (onstop h) (withHost (host_recorders (alter (mr_withState inactive) mr)) w)))
    as (-> & -> & -> & -> & _ & _ & _ & _ & _ & _ & -> & -> & -> & ->).
  assert (Hlen : (0 <? Z.of_nat (length (audioChunksRef (refs w)))) = true).
  { apply Z.ltb_lt. destruct (audioChunksRef (refs w)); [contradiction | cbn; lia]. }
  unfold_m. cbn. rewrite Hlen, Hcb. cbn. rewrite Hst. cbn. repeat split.
Qed.

(** The chunks a running recorder delivers: the world changes in
    [audioChunksRef] only, which gains the chunks that are not empty. *)
Lemma run_dataAvailable_chunks `{Platform} (datas : list Blob) (w : World) (mr : nat)
    (r : MediaRecorder) (h : Handlers) :
  recorders (host w) !! mr = Some r → mr_state r ≠ inactive →
  mr_handlers r = Some h →
  let w1 := run (dataAvailable mr <$> datas) w in
  audioChunksRef (refs w1) =
    audioChunksRef (refs w) ++ List.filter (λ d, 0 <? blobSize d) datas ∧
  mediaRecorderRef (refs w1) = mediaRecorderRef (refs w) ∧
  streamRef (refs w1) = streamRef (refs w) ∧
  host w1 = host w ∧ hooks w1 = hooks w ∧ props w1 = props w ∧
  delivered w1 = delivered w.
Proof.
  revert w. induction datas as [|d datas IH]; intros w Hr Hs Hh; cbn zeta.
  - cbn. rewrite app_nil_r. repeat split.
  - change (run (dataAvailable mr <$> d :: datas) w)
      with (run (dataAvailable mr <$> datas) (step (dataAvailable mr d) w)).
    rewrite (step_dataAvailable w mr r h d Hr Hs Hh). cbn [List.filter].
    destruct (0 <? blobSize d) eqn:Hd.
    + destruct (IH (withRefs (λ r, refs_audioChunks (audioChunksRef r ++ [d]) r) w)
                  Hr Hs Hh) as (Hc & Hrest).
      split; [|exact Hrest].
      rewrite Hc. cbn. rewrite <- app_assoc. reflexivity.
    + exact (IH w Hr Hs Hh).
Qed.

Lemma concat_filter_nonempty (datas : list Blob) :
  concat (blobBytes <$> List.filter (λ d, 0 <? blobSize d) datas) =
    concat (blobBytes <$> datas).
Proof.
  induction datas as [|d datas IH]; [reflexivity|]. cbn.
  destruct (0 <? blobSize d) eqn:Hd; cbn; rewrite IH; [reflexivity|].
  rewrite (blobBytes_empty d Hd). reflexivity.
Qed.

Lemma Reachable_run `{Platform} (p : VoiceRecorderProps) (evs : list Event) (w : World) :
  Reachable p w → Reachable p (run evs w).
Proof.
  revert w. induction evs as [|ev evs IH]; intros w Hw; [exact Hw|].
  apply (IH (step ev w)). apply reach_step. exact Hw.
Qed.

Lemma run_app `{Platform} (l1 l2 : list Event) (w : World) :
  run (l1 ++ l2) w = run l2 (run l1 w).
Proof. unfold run. apply foldl_app. Qed.

(** X5: one whole recording, from an idle component with nothing in flight:
    the click, the grant, chunks, the click that stops, the chunks the
    recorder still flushes, and its [stop] event.  The caller is handed the
    provisional artifact and then one final artifact, which holds the bytes
    of this recording's chunks only, in their order, under the format
    resolved for the level; afterwards nothing is in flight, the component
    is idle without a countdown or an error, and the stream it was granted
    has been released. *)
Theorem recording_cycle `{Platform} (p : VoiceRecorderProps) (w : World) (t0 t1 : Z)
    (level : CompressionLevel) (before after : list Blob) :
  Reachable p w → hasMediaDevices = true →
  quiet w → isRecording (hooks w) = false →
  onDataRecorded (props w) = true →
  default "medium" (compressionLevel (props w)) = levelName level →
  concat (blobBytes <$> before ++ after) ≠ [] →
  let mr := length (recorders (host w)) in
  let w' := run ([click t0; deviceGranted 0 noFault] ++ (dataAvailable mr <$> before) ++
                 [click t1] ++ (dataAvailable mr <$> after) ++ [stopped mr]) w in
  ∃ a, delivered w' = delivered w ++ [provisional; a] ∧
       blobBytes (art_blob a) = concat (blobBytes <$> before ++ after) ∧
       art_type a = orElse (resolverSpec (levelFormat level)) "audio/wav" ∧
       art_isRecording a = false ∧
       art_size a = Some (fileSizeKB (art_blob a)) ∧
       art_url a = "blob:" +:+ pretty (length (objectURLs (host w))) ∧
       quiet w' ∧ isRecording (hooks w') = false ∧ error (hooks w') = None ∧
       intervals (host w') = [] ∧
       streams (host w') = streams (host w) ++ [false].
Proof.
  intros Hreach Hdev [Hpend Hidle] Hrec Hcb Hlevel Hbytes mr w'.
  assert (Hsup : ∀ evs, isSupported (hooks (run evs w)) = true).
  { intros evs. exact (supported_reachable p _ Hdev (Reachable_run p evs w Hreach)). }
  (* the click that starts *)
  set (w1 := step (click t0) w).
  destruct (click_start_world w t0 Hdev (Hsup []) Hrec)
    as (Hp1 & Hd1 & Hr1 & He1 & Hm1 & Hc1 & Hs1 & _ & Hrs1 & Hst1 & Hu1 & Hpe1).
  fold w1 in Hp1, Hd1, Hr1, He1, Hm1, Hc1, Hs1, Hrs1, Hst1, Hu1, Hpe1.
  rewrite Hcb in Hd1. rewrite Hpend in Hpe1. cbn [app] in Hpe1.
  (* the grant *)
  set (w2 := step (deviceGranted 0 noFault) w1).
  assert (Hk : pendingGetUserMedia (host w1) !! 0%nat = Some (scopeOf w))
    by (rewrite Hpe1; reflexivity).
  destruct (settingOf_level level) as [Hset Hnone].
  rewrite <- Hlevel in Hset, Hnone.
  destruct (step_granted w1 0 (scopeOf w) _ Hk Hset)
    as (Hrs2 & Hst2 & Hs2 & Hm2 & Hc2 & Hr2 & He2 & Hpe2 & Hu2 & Hd2).
  fold w2 in Hrs2, Hst2, Hs2, Hm2, Hc2, Hr2, He2, Hpe2, Hu2, Hd2.
  cbn [mimeType audioBitsPerSecond] in Hrs2.
  rewrite supportedMimeTypeFor_spec in Hrs2 by (destruct level; discriminate).
  rewrite Hrs1 in Hrs2, Hm2. rewrite Hst1 in Hrs2, Hst2, Hs2.
  rewrite Hpe1 in Hpe2. cbn in Hpe2.
  set (h := {| h_scope := scopeOf w; h_mimeType := resolverSpec (levelFormat level) |}) in *.
  match type of Hrs2 with _ = _ ++ [?x] => set (r := x) in * end.
  assert (Hmr2 : recorders (host w2) !! mr = Some r)
    by (rewrite Hrs2; apply list_lookup_middle; reflexivity).
  (* the chunks before the stop *)
  set (w3 := run (dataAvailable mr <$> before) w2).
  destruct (run_dataAvailable_chunks before w2 mr r h Hmr2 ltac:(discriminate) eq_refl)
    as (Hc3 & Hm3 & Hs3 & Hh3 & Hk3 & Hp3 & Hd3).
  fold w3 in Hc3, Hm3, Hs3, Hh3, Hk3, Hp3, Hd3.
  (* the click that stops *)
  set (w4 := step (click t1) w3).
  assert (Hsup3 : isSupported (hooks w3) = true).
  { rewrite Hk3. unfold w2, w1. exact (Hsup [click t0; deviceGranted 0 noFault]). }
  destruct (click_stop_world w3 t1 mr r Hsup3
              ltac:(rewrite Hk3; exact Hr2) ltac:(rewrite Hm3; exact Hm2)
              ltac:(rewrite Hh3; exact Hmr2) eq_refl)
    as (Hp4 & Hd4 & Hr4 & He4 & Hm4 & Hc4 & Hs4 & Hrs4 & Hst4 & Hu4 & Hpe4).
  fold w4 in Hp4, Hd4, Hr4, He4, Hm4, Hc4, Hs4, Hrs4, Hst4, Hu4, Hpe4.
  rewrite Hh3, Hrs2 in Hrs4. unfold mr in Hrs4. rewrite snoc_update in Hrs4. fold mr in Hrs4.
  assert (Hmr4 : recorders (host w4) !! mr = Some (mr_withState stopping r))
    by (rewrite Hrs4; apply list_lookup_middle; reflexivity).
  (* the chunks flushed after the stop *)
  set (w5 := run (dataAvailable mr <$> after) w4).
  destruct (run_dataAvailable_chunks after w4 mr _ h Hmr4 ltac:(discriminate) eq_refl)
    as (Hc5 & Hm5 & Hs5 & Hh5 & Hk5 & Hp5 & Hd5).
  fold w5 in Hc5, Hm5, Hs5, Hh5, Hk5, Hp5, Hd5.
  assert (Hchunks : audioChunksRef (refs w5) =
            List.filter (λ d, 0 <? blobSize d) (before ++ after)).
  { rewrite Hc5, Hc4, Hc3, Hc2, Hc1, List.filter_app. reflexivity. }
  assert (Hconcat : concat (blobBytes <$> audioChunksRef (refs w5)) =
            concat (blobBytes <$> before ++ after))
    by (rewrite Hchunks; apply concat_filter_nonempty).
  assert (Hne : audioChunksRef (refs w5) ≠ []).
  { intros Hnil. rewrite Hnil in Hconcat. apply Hbytes. symmetry. exact Hconcat. }
  (* the stop event *)
  destruct (stopped_world w5 mr _ h (length (streams (host w)))
              ltac:(rewrite Hh5; exact Hmr4) ltac:(discriminate) eq_refl Hne Hcb
              ltac:(rewrite Hs5, Hs4, Hs3; exact Hs2))
    as (Hp6 & Hd6 & Hr6 & He6 & Hrs6 & Hst6 & Hu6 & Hpe6).
  assert (Hw' : w' = step (stopped mr) w5).
  { unfold w'. rewrite !run_app. reflexivity. }
  assert (Hreach' : Reachable p w') by (apply Reachable_run; exact Hreach).
  rewrite <- Hw' in Hp6, Hd6, Hr6, He6, Hrs6, Hst6, Hu6, Hpe6.
  assert (Hrec' : isRecording (hooks w') = false).
  { rewrite Hr6, Hk5. exact Hr4. }
  eexists. split; [|split; [|split; [|split; [|split; [|split; [|split; [|split;
             [|split; [|split]]]]]]]]].
  - rewrite Hd6, Hd5, Hd4, Hd3, Hd2, Hd1, <- app_assoc. reflexivity.
  - cbn. exact Hconcat.
  - reflexivity.
  - cbn. exact Hrec.
  - reflexivity.
  - cbn. rewrite Hh5, Hu4, Hh3, Hu2, Hu1. reflexivity.
  - split.
    + rewrite Hpe6, Hh5, Hpe4, Hh3. exact Hpe2.
    + rewrite Hrs6, Hh5, Hrs4. unfold mr. rewrite snoc_update.
      apply Forall_app. split; [exact Hidle | apply Forall_singleton; reflexivity].
  - exact Hrec'.
  - rewrite He6, Hk5, He4, Hk3, He2. exact He1.
  - exact (inv_idle _ (TimerInv_reachable p w' Hreach') Hrec').
  - rewrite Hst6, Hh5, Hst4, Hh3, Hst2.
    rewrite insert_app_r_alt by lia. rewrite Nat.sub_diag. reflexivity.
Qed.

Lemma recording_cycle_witness :
  let w := @run webmPlatform
             [click 1000; deviceGranted 0 noFault; dataAvailable 0 (bytesOf 3); click 4000;
              stopped 0]
             (@mount webmPlatform defaultProps) in
  let w' := @run webmPlatform
              [click 5000; deviceGranted 0 noFault; dataAvailable 1 (bytesOf 2);
               click 6000; dataAvailable 1 (bytesOf 1); stopped 1] w in
  ∃ a, delivered w' = delivered w ++ [provisional; a] ∧
       length (blobBytes (art_blob a)) = 3%nat ∧ art_url a = "blob:1" ∧
       streams (host w') = [false; false].
Proof.
  intros w w'.
  assert (Hreach : @Reachable webmPlatform defaultProps w).
  { unfold w, run. cbn [foldl].
    do 5 apply (@reach_step webmPlatform). apply (@reach_mount webmPlatform). }
  assert (Hquiet : quiet w).
  { split; [reflexivity|]. vm_compute. repeat constructor. }
  destruct (@recording_cycle webmPlatform defaultProps w 5000 6000 medium
              [bytesOf 2] [bytesOf 1] Hreach eq_refl Hquiet eq_refl eq_refl eq_refl
              ltac:(discriminate))
    as (a & Hd & Hb & _ & _ & _ & Hu & _ & _ & _ & _ & Hs).
  exists a. split; [exact Hd|]. split; [rewrite Hb; reflexivity|].
  split; [rewrite Hu; vm_compute; reflexivity|].
  etransitivity; [exact Hs|]. vm_compute. reflexivity.
Defined.

(** ** The stream of a start that fails after the grant *)

(** Once the device is granted the stream is made and kept in [streamRef],
    whatever happens next. *)
Lemma granted_acquires `{Platform} (w : World) (k : nat) (sc : Scope) (fault : EncoderFault) :
  pendingGetUserMedia (host w) !! k = Some sc →
  let w1 := step (deviceGranted k fault) w in
  streams (host w1) = streams (host w) ++ [true] ∧
  streamRef (refs w1) = Some (length (streams (host w))) ∧
  delivered w1 = delivered w ∧
  pendingGetUserMedia (host w1) = delete k (pendingGetUserMedia (host w)).
Proof.
  intros Hk w1. subst w1.
  destruct (handle_normal (deviceGranted k fault) w) as [w1 Hh].
  rewrite (step_unfold _ _ _ Hh).
  destruct (commit_frame (scopeOf w) w1)
    as (_ & -> & _ & _ & _ & _ & _ & _ & -> & _ & _ & -> & _ & ->).
  revert Hh. unfold handle. unfold_m. cbn. rewrite Hk. cbn.
  case_m; intros [= <-]; cbn; repeat split.
Qed.

(** A granted start that throws: the [catch] runs, no recorder is left
    active. *)
Lemma granted_fails `{Platform} (w : World) (k : nat) (sc : Scope) (fault : EncoderFault) :
  pendingGetUserMedia (host w) !! k = Some sc →
  fault ≠ noFault ∨ settingOf (sc_compressionLevel sc) = None →
  let w1 := step (deviceGranted k fault) w in
  (∃ e, startFailed e w1) ∧
  (Forall (λ r, mr_state r = inactive) (recorders (host w)) →
   Forall (λ r, mr_state r = inactive) (recorders (host w1))).
Proof.
  intros Hk Hfail w1. subst w1.
  destruct (handle_normal (deviceGranted k fault) w) as [w1 Hh].
  rewrite (step_unfold _ _ _ Hh).
  destruct (commit_frame (scopeOf w) w1)
    as (_ & _ & Hrec & Herr & _ & _ & _ & _ & _ & _ & -> & _).
  unfold startFailed. rewrite Hrec, Herr. clear Hrec Herr.
  revert Hh. unfold handle. unfold_m. cbn. rewrite Hk. cbn.
  unfold getSupportedMimeType.
  destruct Hfail as [Hfault | Hset].
  - case_m; intros [= <-]; cbn; try contradiction; split;
      try (eexists (Build_Exn _); split; reflexivity);
      intros Hall; rewrite ?snoc_update; try apply Forall_app; auto.
  - rewrite Hset. cbn. intros [= <-]. cbn. split; [|auto].
    eexists (Build_Exn _); split; reflexivity.
Qed.

(** While nothing is in flight, an event other than a click touches no
    stream and leaves [streamRef] alone. *)
Lemma quiet_step_streams `{Platform} (ev : Event) (w : World) :
  quiet w → isClick ev = false →
  streams (host (step ev w)) = streams (host w) ∧
  streamRef (refs (step ev w)) = streamRef (refs w).
Proof.
  intros [Hp Hr] Hev.
  destruct (handle_normal ev w) as [w1 Hh].
  rewrite (step_unfold _ _ _ Hh).
  destruct (commit_frame (scopeOf w) w1)
    as (_ & _ & _ & _ & _ & _ & _ & _ & -> & _ & _ & -> & _).
  revert Hh.
  destruct ev; try discriminate Hev; unfold handle; unfold_m; cbn.
  - rewrite Hp, lookup_nil. intros [= <-]. auto.
  - rewrite Hp, lookup_nil. intros [= <-]. auto.
  - destruct (recorders (host w) !! mr) as [r|] eqn:Hmr;
      [rewrite (Forall_inactive_lookup _ _ _ Hr Hmr)|]; intros [= <-]; auto.
  - destruct (recorders (host w) !! mr) as [r|] eqn:Hmr;
      [rewrite (Forall_inactive_lookup _ _ _ Hr Hmr)|]; intros [= <-]; auto.
  - case_m; intros [= <-]; cbn; auto.
  - intros [= <-]. auto.
  - destruct hasMediaDevices; cbn; intros [= <-]; auto.
Qed.

Lemma quiet_run_streams `{Platform} (evs : list Event) (w : World) :
  quiet w → forallb (λ ev, negb (isClick ev)) evs = true →
  streams (host (run evs w)) = streams (host w) ∧
  streamRef (refs (run evs w)) = streamRef (refs w).
Proof.
  revert w. induction evs as [|ev evs IH]; intros w Hq Hevs; [split; reflexivity|].
  cbn in Hevs. apply andb_prop in Hevs as [Hev Hevs].
  apply negb_true_iff in Hev.
  destruct (quiet_step ev w Hq Hev) as [Hq' _].
  destruct (quiet_step_streams ev w Hq Hev) as [Hs Hr].
  change (run (ev :: evs) w) with (run evs (step ev w)).
  destruct (IH _ Hq' Hevs) as [-> ->]. auto.
Qed.

(** What the unmount cleanups do to the streams. *)
Lemma unmount_streams (w : World) :
  streams (host (unmount w)) =
    match streamRef (refs w) with
    | Some s => <[s := false]> (streams (host w))
    | None => streams (host w)
    end.
Proof.
  unfold unmount, releaseEffectCleanup, timerCleanup. unfold_m. cbn.
  destruct (timerRef (refs w)); cbn; destruct (streamRef (refs w)); reflexivity.
Qed.

(** X6: a start that fails after the device was granted (the recorder's
    constructor or its [start] throws, or the level is no key of the table)
    ends in the [catch], which does not release the stream just acquired:
    its tracks stay live through whatever follows short of a click, and
    are stopped only when the component unmounts. *)
Theorem failed_start_keeps_stream `{Platform} (w : World) (sc : Scope)
    (fault : EncoderFault) (evs : list Event) :
  pendingGetUserMedia (host w) = [sc] →
  Forall (λ r, mr_state r = inactive) (recorders (host w)) →
  fault ≠ noFault ∨ settingOf (sc_compressionLevel sc) = None →
  forallb (λ ev, negb (isClick ev)) evs = true →
  let w1 := step (deviceGranted 0 fault) w in
  let w2 := run evs w1 in
  (∃ e, startFailed e w1) ∧
  streams (host w2) = streams (host w) ++ [true] ∧
  streamRef (refs w2) = Some (length (streams (host w))) ∧
  streams (host (unmount w2)) = streams (host w) ++ [false].
Proof.
  intros Hpend Hidle Hfail Hevs w1 w2.
  assert (Hk : pendingGetUserMedia (host w) !! 0%nat = Some sc) by (rewrite Hpend; reflexivity).
  destruct (granted_acquires w 0 sc fault Hk) as (Hst & Hsr & _ & Hpe).
  destruct (granted_fails w 0 sc fault Hk Hfail) as (Herr & Hinact).
  fold w1 in Hst, Hsr, Hpe, Herr, Hinact.
  assert (Hq : quiet w1).
  { split; [rewrite Hpe, Hpend; reflexivity | exact (Hinact Hidle)]. }
  destruct (quiet_run_streams evs w1 Hq Hevs) as [Hst2 Hsr2]. fold w2 in Hst2, Hsr2.
  split; [exact Herr|]. split; [congruence|]. split; [congruence|].
  rewrite unmount_streams, Hsr2, Hsr, Hst2, Hst.
  rewrite insert_app_r_alt by lia. rewrite Nat.sub_diag. reflexivity.
Qed.

Lemma failed_start_keeps_stream_witness :
  let w := @step webmPlatform (click 1000) (@mount webmPlatform defaultProps) in
  let w2 := @run webmPlatform
              [deviceGranted 0 (startThrows {| message := "NotSupportedError" |});
               tick 1 1100; stopped 0]
              w in
  isRecording (hooks w2) = false ∧ streams (host w2) = [true] ∧
  streams (host (unmount w2)) = [false].
Proof.
  intros w w2.
  destruct (@failed_start_keeps_stream webmPlatform w
              (scopeOf (@mount webmPlatform defaultProps))
              (startThrows {| message := "NotSupportedError" |})
              [tick 1 1100; stopped 0]
              eq_refl ltac:(constructor) ltac:(left; discriminate) eq_refl)
    as (_ & Hst & _ & Hun).
  split; [vm_compute; reflexivity|]. split; [exact Hst | exact Hun].
Defined.

(** ** Unmounting *)

Lemma unmount_frame (w : World) :
  let w' := unmount w in
  props w' = props w ∧ hooks w' = hooks w ∧ refs w' = refs w ∧
  delivered w' = delivered w ∧
  recorders (host w') = recorders (host w) ∧
  objectURLs (host w') = objectURLs (host w) ∧
  pendingGetUserMedia (host w') = pendingGetUserMedia (host w) ∧
  intervals (host w') =
    match timerRef (refs w) with
    | Some id => filter (λ p, p.1 ≠ id) (intervals (host w))
    | None => intervals (host w)
    end.
Proof.
  unfold unmount, releaseEffectCleanup, timerCleanup. unfold_m. cbn.
  destruct (timerRef (refs w)); cbn; destruct (streamRef (refs w)); cbn; repeat split.
Qed.

Lemma unmount_idempotent (w : World) : unmount (unmount w) = unmount w.
Proof.
  unfold unmount, releaseEffectCleanup, timerCleanup. unfold_m. cbn.
  destruct (timerRef (refs w)) as [id|] eqn:Ht; cbn; rewrite ?Ht; cbn;
    destruct (streamRef (refs w)) as [s|] eqn:Hs; cbn; rewrite ?Ht, ?Hs; cbn;
    rewrite ?Ht, ?Hs; cbn; unfold withHost, host_streams, host_intervals; cbn;
    rewrite ?list_insert_insert_eq, ?list_filter_filter; try reflexivity.
  all: repeat f_equal; apply list_filter_iff; intros [? ?]; cbn; tauto.
Qed.

(** X7: unmounting cancels the countdown and stops the tracks of the stream
    held in [streamRef].  It does nothing else: no recorder is stopped, so
    none will hand over what it recorded; a device request still pending is
    not withdrawn.  Unmounting twice is unmounting once.  When the button
    was used with one session at a time, the stream of every recorder that
    is still running is among those released. *)
Theorem unmount_releases `{Platform} (p : VoiceRecorderProps) (w : World) :
  Reachable p w →
  let w' := unmount w in
  intervals (host w') = [] ∧
  streams (host w') =
    match streamRef (refs w) with
    | Some s => <[s := false]> (streams (host w))
    | None => streams (host w)
    end ∧
  recorders (host w') = recorders (host w) ∧
  delivered w' = delivered w ∧
  pendingGetUserMedia (host w') = pendingGetUserMedia (host w) ∧
  unmount w' = w' ∧
  (Disciplined p w →
   ∀ i r, recorders (host w) !! i = Some r → isActive r = true →
          streams (host w') !! mr_stream r = Some false).
Proof.
  intros Hreach w'. subst w'.
  destruct (unmount_frame w) as (_ & _ & _ & Hd & Hrs & _ & Hpe & Hin).
  pose proof (TimerInv_reachable p w Hreach) as Htimer.
  split; [|split; [|split; [|split; [|split; [|split]]]]].
  - rewrite Hin. destruct (timerRef (refs w)) as [id|] eqn:Ht.
    + exact (filter_timerRef w id Htimer Ht).
    + destruct (isRecording (hooks w)) eqn:Hrec.
      * destruct (inv_counting _ Htimer Hrec) as (id & sc & _ & Hid & _). congruence.
      * exact (inv_idle _ Htimer Hrec).
  - apply unmount_streams.
  - exact Hrs.
  - exact Hd.
  - exact Hpe.
  - apply unmount_idempotent.
  - intros Hdisc i r Hi Ha.
    destruct (Disciplined_ownsDevice p w Hdisc i r Hi Ha) as [Hown _].
    destruct (inv_stream _ (ClosureInv_reachable p w Hreach)) as (s & Hs & Hlt).
    { intros Hnil. rewrite Hnil, lookup_nil in Hi. discriminate Hi. }
    rewrite unmount_streams, Hown.
    apply list_lookup_insert_eq. congruence.
Qed.

Lemma unmount_releases_witness :
  let w := @run webmPlatform [click 1000; deviceGranted 0 noFault; dataAvailable 0 (bytesOf 3)]
             (@mount webmPlatform defaultProps) in
  intervals (host w) ≠ [] ∧ streams (host w) = [true] ∧
  intervals (host (unmount w)) = [] ∧ streams (host (unmount w)) = [false] ∧
  delivered (unmount w) = [provisional].
Proof.
  intros w.
  assert (Hreach : @Reachable webmPlatform defaultProps w).
  { unfold w, run. cbn [foldl].
    do 3 apply (@reach_step webmPlatform). apply (@reach_mount webmPlatform). }
  destruct (@unmount_releases webmPlatform defaultProps w Hreach)
    as (Hin & Hst & _ & Hd & _).
  split; [vm_compute; discriminate|]. split; [vm_compute; reflexivity|].
  split; [exact Hin|].
  split; [etransitivity; [exact Hst | vm_compute; reflexivity]|].
  etransitivity; [exact Hd | vm_compute; reflexivity].
Defined.

(** ** What is shown *)

(** Once a component without [mediaDevices] is marked unsupported, an event
    hands nothing over and leaves it marked. *)
Lemma hidden_step `{Platform} (ev : Event) (w : World) :
  isSupported (hooks w) = false →
  pendingGetUserMedia (host w) = [] → recorders (host w) = [] →
  intervals (host w) = [] →
  isSupported (hooks (step ev w)) = false ∧ delivered (step ev w) = delivered w.
Proof.
  intros Hsup Hpe Hrs Hin.
  destruct (handle_normal ev w) as [w1 Hh].
  rewrite (step_unfold _ _ _ Hh).
  destruct (commit_frame (scopeOf w) w1) as (_ & -> & _ & _ & _ & -> & _).
  revert Hh. destruct ev; unfold handle; unfold_m; cbn;
    rewrite ?Hsup, ?Hpe, ?Hrs, ?Hin; cbn; rewrite ?lookup_nil; cbn;
    case_m; intros [= <-]; cbn; split; first [reflexivity | assumption].
Qed.

Lemma hidden_run `{Platform} (p : VoiceRecorderProps) (evs : list Event) (w : World) :
  hasMediaDevices = false → Reachable p w → isSupported (hooks w) = false →
  isSupported (hooks (run evs w)) = false ∧ delivered (run evs w) = delivered w.
Proof.
  intros Hdev. revert w. induction evs as [|ev evs IH]; intros w Hreach Hsup; [auto|].
  destruct (unsupported_reachable p w Hdev Hreach) as (_ & Hpe & Hrs & _ & Hin & _).
  destruct (hidden_step ev w Hsup Hpe Hrs Hin) as [Hsup' Hd'].
  change (run (ev :: evs) w) with (run evs (step ev w)).
  destruct (IH (step ev w) (reach_step p w ev Hreach) Hsup') as [-> ->]. auto.
Qed.

(** The mount effects on a platform without [mediaDevices]. *)
Lemma mountEffects_unsupported `{Platform} (w : World) :
  hasMediaDevices = false →
  isSupported (hooks (step mountEffects w)) = false ∧
  delivered (step mountEffects w) = delivered w.
Proof.
  intros Hdev.
  destruct (handle_normal mountEffects w) as [w1 Hh].
  rewrite (step_unfold _ _ _ Hh).
  destruct (commit_frame (scopeOf w) w1) as (_ & -> & _ & _ & _ & -> & _).
  revert Hh. unfold handle. unfold_m. rewrite Hdev. cbn. intros [= <-]. auto.
Qed.

(** The mount effects run once; the model lets the event come again, which
    changes nothing. *)
Lemma mountEffects_once `{Platform} (w : World) :
  step mountEffects (step mountEffects w) = step mountEffects w.
Proof.
  unfold step, handle, exec. unfold_m. unfold_commit. cbn.
  destruct hasMediaDevices; cbn; rewrite ?Bool.eqb_reflx, ?Z.eqb_refl; cbn;
    rewrite ?Bool.eqb_reflx, ?Z.eqb_refl; reflexivity.
Qed.

(** X8: on a platform without [mediaDevices] the component never gets to
    the device: at any time it is not recording, no request is pending, there
    is no recorder, no stream and no countdown, and all it has handed over
    are provisional artifacts.  The first render shows the button, and a
    click there hands over the provisional artifact before the start ends in
    the [catch].  Once the mount effects have run the component is inert:
    whatever events arrive it shows the message instead of the button and
    never calls [onDataRecorded] again. *)
Theorem unsupported_platform_inert `{Platform} (p : VoiceRecorderProps) (w : World)
    (evs : list Event) :
  hasMediaDevices = false → Reachable p w →
  (isRecording (hooks w) = false ∧
   pendingGetUserMedia (host w) = [] ∧ recorders (host w) = [] ∧
   streams (host w) = [] ∧ intervals (host w) = [] ∧
   ∀ a, a ∈ delivered w → a = provisional) ∧
  (∀ now,
     isSupported (hooks (mount p)) = true ∧
     delivered (step (click now) (mount p)) =
       (if onDataRecorded p then [provisional] else []) ∧
     startFailed (typeErrorUndefined "getUserMedia") (step (click now) (mount p))) ∧
  (let w' := run evs (step mountEffects w) in
   render w' =
     element "div" [("className", pString "unsupported-message")]
       [text "Audio recording is not supported in this browser."] ∧
   delivered w' = delivered w ∧
   isSupported (hooks w') = false).
Proof.
  intros Hdev Hreach.
  destruct (unsupported_reachable p w Hdev Hreach) as (Hrec & Hpe & Hrs & Hst & Hin & _ & Hd).
  split; [|split].
  - repeat split; try assumption. exact (proj1 (Forall_forall _ _) Hd).
  - intros now. split; [reflexivity|].
    unfold step, handle, exec. unfold_m. unfold_commit. cbn. rewrite Hdev. cbn.
    destruct (onDataRecorded p); cbn; rewrite Z.eqb_refl; cbn; repeat split.
  - cbn zeta.
    pose proof (reach_step p w mountEffects Hreach) as Hreach1.
    destruct (mountEffects_unsupported w Hdev) as [Hsup1 Hd1].
    destruct (hidden_run p evs _ Hdev Hreach1 Hsup1) as [Hsup' Hd'].
    pose proof (Reachable_run p evs _ Hreach1) as Hreach'.
    destruct (unsupported_reachable p _ Hdev Hreach') as (_ & _ & _ & _ & _ & Herr & _).
    split; [|split; [congruence | exact Hsup']].
    unfold render. rewrite Hsup', (Herr Hsup'). reflexivity.
Qed.

Lemma unsupported_platform_inert_witness :
  let old := {| isTypeSupported := λ _, true; hasMediaDevices := false |} in
  let early := @step old (click 1000) (@mount old defaultProps) in
  let w := @run old [mountEffects; click 2000; deviceGranted 0 noFault; tick 1 2100]
             early in
  @hasMediaDevices old = false ∧
  delivered early = [provisional] ∧
  error (hooks early) =
    Some "Could not access microphone: Cannot read properties of undefined (reading 'getUserMedia')" ∧
  delivered w = [provisional] ∧ isSupported (hooks w) = false ∧
  error (hooks w) = Some "Audio recording is not supported in this browser.".
Proof.
  intros old early w. split; [reflexivity|].
  assert (Hreach : @Reachable old defaultProps early).
  { unfold early. apply (@reach_step old). apply (@reach_mount old). }
  destruct (@unsupported_platform_inert old defaultProps early
              [click 2000; deviceGranted 0 noFault; tick 1 2100] eq_refl Hreach)
    as (_ & _ & _ & Hd & Hs).
  split; [vm_compute; reflexivity|]. split; [vm_compute; reflexivity|].
  split; [etransitivity; [exact Hd | vm_compute; reflexivity]|].
  split; [exact Hs | vm_compute; reflexivity].
Defined.

(** X9: what the component shows depends on nothing but its two flags:
    two states of it, whatever their props and their past, look the same
    when they agree on [isSupported] and [isRecording].  On a platform with
    [mediaDevices] it is always supported, so there what it shows depends on
    [isRecording] alone: the message of a failed start is never shown, and
    while idle the button is the one of the first render. *)
Theorem render_depends_on_flags `{Platform} (p1 p2 : VoiceRecorderProps)
    (w1 w2 : World) :
  Reachable p1 w1 → Reachable p2 w2 →
  isRecording (hooks w1) = isRecording (hooks w2) →
  (isSupported (hooks w1) = isSupported (hooks w2) → render w1 = render w2) ∧
  (hasMediaDevices = true → render w1 = render w2) ∧
  (hasMediaDevices = true → isRecording (hooks w1) = false → render w1 = render (mount p1)).
Proof.
  intros Hr1 Hr2 Hrec.
  assert (Herr : ∀ p w, Reachable p w → isSupported (hooks w) = false →
                        error (hooks w) = Some unsupportedMessage).
  { intros p w Hr Hs. destruct hasMediaDevices eqn:Hdev.
    - rewrite (supported_reachable p w Hdev Hr) in Hs. discriminate Hs.
    - destruct (unsupported_reachable p w Hdev Hr) as (_ & _ & _ & _ & _ & He & _).
      exact (He Hs). }
  split; [|split].
  - intros Hsup. unfold render. rewrite <- Hsup, Hrec.
    destruct (isSupported (hooks w1)) eqn:Hs1; cbn; [reflexivity|].
    rewrite (Herr p1 w1 Hr1 Hs1), (Herr p2 w2 Hr2 (eq_sym Hsup)).
    reflexivity.
  - intros Hdev. unfold render.
    rewrite (supported_reachable p1 w1 Hdev Hr1), (supported_reachable p2 w2 Hdev Hr2), Hrec.
    reflexivity.
  - intros Hdev Hidle. unfold render.
    rewrite (supported_reachable p1 w1 Hdev Hr1), Hidle. reflexivity.
Qed.

Lemma render_depends_on_flags_witness :
  let failed := @run webmPlatform
                  [click 1000; deviceDenied 0 {| message := "Permission denied" |}]
                  (@mount webmPlatform defaultProps) in
  error (hooks failed) = Some "Could not access microphone: Permission denied" ∧
  render failed = render (@mount webmPlatform defaultProps).
Proof.
  intros failed. split; [vm_compute; reflexivity|].
  assert (Hreach : @Reachable webmPlatform defaultProps failed).
  { unfold failed, run. cbn [foldl].
    do 2 apply (@reach_step webmPlatform). apply (@reach_mount webmPlatform). }
  exact (proj1 (@render_depends_on_flags webmPlatform defaultProps defaultProps
                  failed (@mount webmPlatform defaultProps) Hreach
                  (@reach_mount webmPlatform defaultProps) eq_refl) eq_refl).
Defined.

(** ** The example application *)

Lemma truthyString_blob (s : string) : truthyString ("blob:" +:+ s) = true.
Proof. reflexivity. Qed.

Lemma finalArtifacts_elem (l : list Artifact) (a : Artifact) :
  a ∈ l → art_isRecording a = false → ∃ i, finalArtifacts l !! i = Some a.
Proof.
  intros Ha Hflag. apply list_elem_of_lookup.
  apply list_elem_of_In, List.filter_In. split; [apply list_elem_of_In; exact Ha|].
  rewrite Hflag. reflexivity.
Qed.

(** X10: the README's application shows what the last artifact says, not what
    the recorder is doing.  While the last artifact handed over is the
    provisional one, the indicator is shown, the player is absent and no
    size is given.  Once it is a final artifact the indicator is gone, the
    player plays that artifact's object URL, and the size printed is the
    blob's bytes over 1024 to two decimals, left out when the artifact's
    rounded size in KB is zero. *)
Theorem App_shows_last_artifact `{Platform} (p : VoiceRecorderProps) (w : World)
    (a : Artifact) :
  Reachable p w → audioDataOf w = Some a →
  (art_isRecording a = true →
     App (Some a) w =
       element "div" [("className", pString "App")]
         [ element "h1" [] [text "My Voice Recording App"];
           render w;
           element "div" [("className", pString "recording-indicator")]
             [ element "span" [("className", pString "recording-dot")] [];
               text "Recording in progress..." ];
           element "div" [("className", pString "audio-container")] [text ""];
           element "div" [] [jsFalse] ]) ∧
  (art_isRecording a = false →
     ∃ i : nat,
       objectURLs (host w) !! i = Some (art_blob a) ∧
       App (Some a) w =
         element "div" [("className", pString "App")]
           [ element "h1" [] [text "My Voice Recording App"];
             render w;
             jsFalse;
             element "div" [("className", pString "audio-container")]
               [ fragment
                   [ element "audio"
                       [ ("controls", pBool true);
                         ("src", pString ("blob:" +:+ pretty i));
                         ("className", pString "audio-player") ] [] ] ];
             element "div" []
               [ if fileSizeKB (art_blob a) =? 0 then jsFalse
                 else element "p" []
                        [ text "Size: ";
                          text (AudioSize (Some (blobSize (art_blob a)))) ] ] ]).
Proof.
  intros Hreach Hlast. apply last_Some_elem_of in Hlast.
  pose proof (DeliveredInv_reachable p w Hreach) as [_ Hf Hu Hw].
  pose proof (proj1 (Forall_forall _ _) Hw a Hlast) as Hok.
  unfold artifactOk in Hok. split; intros Hflag; rewrite Hflag in Hok.
  - subst a. reflexivity.
  - destruct Hok as (_ & Hsize & _).
    destruct (finalArtifacts_elem _ _ Hlast Hflag) as [i Hi].
    assert (Hurl : (art_url <$> finalArtifacts (delivered w)) !! i = Some (art_url a))
      by (rewrite list_lookup_fmap, Hi; reflexivity).
    rewrite Hu, list_lookup_fmap in Hurl.
    destruct (seq 0 (length (objectURLs (host w))) !! i) as [j|] eqn:Hj;
      [|discriminate Hurl].
    apply lookup_seq in Hj as [-> _]. cbn in Hurl. injection Hurl as Hurl.
    exists i. split; [rewrite <- Hf, list_lookup_fmap, Hi; reflexivity|].
    unfold App, PreviewVoiceNote, sizeIsNotZero. cbn [fmap option_fmap option_map default from_option id RecordingStatus].
    rewrite Hflag, Hsize, <- Hurl, truthyString_blob. cbn [RecordingStatus].
    destruct (fileSizeKB (art_blob a) =? 0); reflexivity.
Qed.

Lemma App_shows_last_artifact_witness :
  let failed := @run webmPlatform
                  [click 1000; deviceDenied 0 {| message := "Permission denied" |};
                   tick 1 1100]
                  (@mount webmPlatform defaultProps) in
  audioDataOf failed = Some provisional ∧ isRecording (hooks failed) = false ∧
  App (audioDataOf failed) failed =
    element "div" [("className", pString "App")]
      [ element "h1" [] [text "My Voice Recording App"];
        render (@mount webmPlatform defaultProps);
        RecordingStatus true;
        PreviewVoiceNote (Some "");
        element "div" [] [jsFalse] ].
Proof.
  intros failed.
  assert (Hreach : @Reachable webmPlatform defaultProps failed).
  { unfold failed, run. cbn [foldl].
    do 3 apply (@reach_step webmPlatform). apply (@reach_mount webmPlatform). }
  assert (Hlast : audioDataOf failed = Some provisional) by (vm_compute; reflexivity).
  split; [exact Hlast|]. split; [vm_compute; reflexivity|].
  rewrite Hlast.
  rewrite (proj1 (@App_shows_last_artifact webmPlatform defaultProps failed provisional
                    Hreach Hlast) eq_refl).
  vm_compute. reflexivity.
Defined.

(** ** A recorder that ended by itself *)

Lemma recording_is_supported `{Platform} (p : VoiceRecorderProps) (w : World) :
  Reachable p w → isRecording (hooks w) = true → isSupported (hooks w) = true.
Proof.
  intros Hreach Hrec. destruct hasMediaDevices eqn:Hdev.
  - exact (supported_reachable p w Hdev Hreach).
  - destruct (unsupported_reachable p w Hdev Hreach) as (Hidle & _). congruence.
Qed.

(** The [stop] event of a recorder leaves the recording flag and the
    countdown as they are. *)
Lemma stopped_keeps_flag `{Platform} (w : World) (mr : nat) :
  isRecording (hooks (step (stopped mr) w)) = isRecording (hooks w) ∧
  intervals (host (step (stopped mr) w)) = intervals (host w) ∧
  timerRef (refs (step (stopped mr) w)) = timerRef (refs w).
Proof.
  destruct (handle_normal (stopped mr) w) as [w1 Hh].
  rewrite (step_unfold _ _ _ Hh).
  assert (Hw1 : isRecording (hooks w1) = isRecording (hooks w) ∧
                props w1 = props w ∧
                intervals (host w1) = intervals (host w) ∧
                timerRef (refs w1) = timerRef (refs w)).
  { revert Hh. unfold handle. unfold_m. case_m; intros [= <-]; cbn; repeat split. }
  destruct Hw1 as (Hrec & Hprops & Hin & Ht).
  rewrite commit_same; [auto | cbn; congruence | cbn; congruence].
Qed.

(** X11: a recorder can stop without [stopRecording], when its tracks end: its
    [stop] event hands over what was recorded, yet the component goes on
    showing that it records and the countdown goes on.  The click that
    follows (as the countdown's end would) calls [stop] on a recorder that
    is no longer recording; the exception is swallowed: the component
    becomes idle, the countdown is cancelled, no error is recorded, and no
    recorder or stream is touched. *)
Theorem stop_after_recorder_ended `{Platform} (p : VoiceRecorderProps) (w : World)
    (now : Z) (mr : nat) (r : MediaRecorder) :
  Reachable p w → isRecording (hooks w) = true →
  mediaRecorderRef (refs w) = Some mr →
  recorders (host w) !! mr = Some r →
  (∀ ended,
     isRecording (hooks (step (stopped ended) w)) = true ∧
     intervals (host (step (stopped ended) w)) = intervals (host w)) ∧
  (mr_state r ≠ recording →
   let w' := step (click now) w in
   isRecording (hooks w') = false ∧ intervals (host w') = [] ∧
   error (hooks w') = error (hooks w) ∧
   recorders (host w') = recorders (host w) ∧
   streams (host w') = streams (host w) ∧
   delivered w' = delivered w).
Proof.
  intros Hreach Hrec Hmr Hr. split.
  - intros ended. destruct (stopped_keeps_flag w ended) as (-> & -> & _). auto.
  - intros Hstate w'. subst w'.
    pose proof (recording_is_supported p w Hreach Hrec) as Hsup.
    destruct (step_click_recording w now (TimerInv_reachable p w Hreach) Hsup Hrec)
      as (_ & Hd & _ & _ & Hst & Hidle & Hin).
    split; [exact Hidle|]. split; [exact Hin|].
    destruct (handle_normal (click now) w) as [w1 Hh].
    rewrite (step_unfold _ _ _ Hh) in *.
    destruct (commit_frame (scopeOf w) w1)
      as (_ & _ & _ & -> & _ & _ & _ & _ & _ & _ & -> & _).
    assert (Hw1 : error (hooks w1) = error (hooks w) ∧
                  recorders (host w1) = recorders (host w)).
    { revert Hh. unfold handle. unfold_m. cbn. rewrite Hsup, Hrec, Hmr. cbn.
      rewrite Hr. destruct (mr_state r); try contradiction; cbn;
        destruct (timerRef (refs w)); cbn; intros [= <-]; cbn; split; reflexivity. }
    destruct Hw1 as [-> ->]. auto.
Qed.

Lemma stop_after_recorder_ended_witness :
  let w := @run webmPlatform
             [click 1000; deviceGranted 0 noFault; dataAvailable 0 (bytesOf 3); stopped 0]
             (@mount webmPlatform defaultProps) in
  let w' := @step webmPlatform (click 4000) w in
  isRecording (hooks w) = true ∧ length (delivered w) = 2%nat ∧
  isRecording (hooks w') = false ∧ error (hooks w') = None ∧ intervals (host w') = [].
Proof.
  intros w w'.
  assert (Hreach : @Reachable webmPlatform defaultProps w).
  { unfold w, run. cbn [foldl].
    do 4 apply (@reach_step webmPlatform). apply (@reach_mount webmPlatform). }
  assert (Hrec : isRecording (hooks w) = true) by (vm_compute; reflexivity).
  destruct (@stop_after_recorder_ended webmPlatform defaultProps w 4000 0%nat
              {| mr_state := inactive; mr_stream := 0;
                 mr_options := {| opt_mimeType := "audio/webm";
                                  opt_audioBitsPerSecond := Some 64000 |};
                 mr_handlers := Some {| h_scope := scopeOf (@mount webmPlatform defaultProps);
                                        h_mimeType := "audio/webm" |} |}
              Hreach Hrec ltac:(vm_compute; reflexivity) ltac:(vm_compute; reflexivity))
    as [_ Hclick].
  destruct (Hclick ltac:(discriminate)) as (Hidle & Hin & Herr & _).
  split; [exact Hrec|]. split; [vm_compute; reflexivity|].
  split; [exact Hidle|].
  split; [etransitivity; [exact Herr | vm_compute; reflexivity] | exact Hin].
Defined.

(** ** Provisional and final artifacts *)

Lemma provisionalArtifacts_snoc (l : list Artifact) (a : Artifact) :
  provisionalArtifacts (l ++ [a]) =
    provisionalArtifacts l ++ if art_isRecording a then [a] else [].
Proof.
  unfold provisionalArtifacts. rewrite List.filter_app. cbn.
  destruct (art_isRecording a); reflexivity.
Qed.

Lemma filter_length_alter {A} (P : A → bool) (f : A → A) (l : list A) (i : nat) (x : A) :
  l !! i = Some x →
  (length (List.filter P (alter f i l)) + (if P x then 1 else 0) =
   length (List.filter P l) + (if P (f x) then 1 else 0))%nat.
Proof.
  revert i. induction l as [|y l IH]; intros i Hi; [discriminate Hi|].
  destruct i as [|i]; cbn in *.
  - injection Hi as ->. destruct (P x), (P (f x)); cbn; lia.
  - specialize (IH i Hi). destruct (P y); cbn; [f_equal|]; exact IH.
Qed.

Lemma filter_length_delete {A} (P : A → bool) (l : list A) (k : nat) (x : A) :
  l !! k = Some x →
  (length (List.filter P (delete k l)) + (if P x then 1 else 0) =
   length (List.filter P l))%nat.
Proof.
  revert k. induction l as [|y l IH]; intros k Hk; [discriminate Hk|].
  destruct k as [|k]; cbn in *.
  - injection Hk as ->. destruct (P x); cbn; lia.
  - specialize (IH k Hk). destruct (P y); cbn; [f_equal|]; exact IH.
Qed.

Ltac owed_goal :=
  unfold owed; cbn;
  rewrite ?snoc_update, ?finalArtifacts_snoc, ?provisionalArtifacts_snoc,
    ?List.filter_app, ?length_app; cbn;
  repeat match goal with
  | Hk : ?l !! ?k = Some ?x |- context [List.filter ?P (delete ?k ?l)] =>
      lazymatch goal with
      | _ : context [List.filter P (delete k l)] |- _ => fail
      | _ => pose proof (filter_length_delete P l k x Hk)
      end
  | Hi : ?l !! ?i = Some ?x |- context [List.filter ?P (alter ?f ?i ?l)] =>
      lazymatch goal with
      | _ : context [List.filter P (alter f i l)] |- _ => fail
      | _ => pose proof (filter_length_alter P f l i x Hi)
      end
  end;
  unfold owesCallback, isActive in *; cbn in *;
  repeat match goal with
  | H : mr_state ?r = _ |- _ => rewrite H in *; clear H
  | H : mr_handlers ?r = _ |- _ => rewrite H in *; clear H
  | H : sc_onDataRecorded _ = _ |- _ => rewrite H in *; clear H
  | H : sc_isRecording _ = _ |- _ => rewrite H in *; clear H
  end; cbn in *;
  repeat match goal with
  | |- context [if ?c then _ else _] => destruct c eqn:?; cbn in *
  | H : context [if ?c then _ else _] |- _ => destruct c eqn:?; cbn in *
  | |- context [match ?c with Some _ => _ | None => _ end] => destruct c eqn:?; cbn in *
  | H : context [match ?c with Some _ => _ | None => _ end] |- _ =>
      destruct c eqn:?; cbn in *
  end; try lia.

Lemma owed_handle `{Platform} (ev : Event) (w w1 : World) :
  (length (finalArtifacts (delivered w)) + owed w
   ≤ length (provisionalArtifacts (delivered w)))%nat →
  handle ev w = (Normal (), w1) →
  (length (finalArtifacts (delivered w1)) + owed w1
   ≤ length (provisionalArtifacts (delivered w1)))%nat.
Proof.
  unfold owed at 1. intros Hinv.
  destruct ev; unfold handle; unfold_m; case_m; intros [= <-].
  all: owed_goal.
Qed.

(** X12: whatever happened before, the caller has been handed at least as many
    provisional artifacts as final ones, and the difference covers every
    start still in flight whose render had the callback: a final artifact
    never comes without the provisional artifact of its own start before
    it. *)
Theorem finals_follow_provisionals `{Platform} (p : VoiceRecorderProps) (w : World) :
  Reachable p w →
  (length (finalArtifacts (delivered w)) + owed w
   ≤ length (provisionalArtifacts (delivered w)))%nat.
Proof.
  induction 1 as [|w ev _ IH]; [unfold finalArtifacts, provisionalArtifacts, owed; cbn; lia|].
  destruct (handle_normal ev w) as [w1 Hh].
  rewrite (step_unfold _ _ _ Hh). unfold owed.
  destruct (commit_frame (scopeOf w) w1)
    as (_ & -> & _ & _ & _ & _ & _ & _ & _ & _ & -> & _ & _ & ->).
  exact (owed_handle ev w w1 IH Hh).
Qed.

Lemma finals_follow_provisionals_witness :
  let w := @run webmPlatform
             [click 1000; deviceGranted 0 noFault; dataAvailable 0 (bytesOf 3); click 4000;
              stopped 0; click 5000; deviceGranted 0 noFault]
             (@mount webmPlatform defaultProps) in
  length (finalArtifacts (delivered w)) = 1%nat ∧ owed w = 1%nat ∧
  (2 ≤ length (provisionalArtifacts (delivered w)))%nat.
Proof.
  intros w.
  assert (Hreach : @Reachable webmPlatform defaultProps w).
  { unfold w, run. cbn [foldl].
    do 7 apply (@reach_step webmPlatform). apply (@reach_mount webmPlatform). }
  pose proof (@finals_follow_provisionals webmPlatform defaultProps w Hreach) as Hle.
  assert (Hf : length (finalArtifacts (delivered w)) = 1%nat) by (vm_compute; reflexivity).
  assert (Ho : owed w = 1%nat) by (vm_compute; reflexivity).
  split; [exact Hf|]. split; [exact Ho|].
  rewrite Hf, Ho in Hle. exact Hle.
Defined.

(** ** Idle means not capturing *)

Lemma recording_isActive (r : MediaRecorder) : mr_state r = recording → isActive r = true.
Proof. unfold isActive. intros ->. reflexivity. Qed.

Lemma idle_handle `{Platform} (ev : Event) (w w1 : World) :
  (sessions w ≤ 1)%nat → ownsDevice w →
  (isRecording (hooks w) = false →
   ∀ i r, recorders (host w) !! i = Some r → mr_state r ≠ recording) →
  handle ev w = (Normal (), w1) →
  isRecording (hooks w1) = false →
  ∀ i r, recorders (host w1) !! i = Some r → mr_state r ≠ recording.
Proof.
  intros Hone Hown HJ.
  destruct ev; unfold handle; unfold_m; case_m; intros [= <-]; cbn;
    rewrite ?snoc_update; intros Hidle i r Hi Hstate.
  all: try discriminate Hidle.
  all: try (exact (HJ eq_refl i r Hi Hstate)).
  all: try (exact (HJ Hidle i r Hi Hstate)).
  all: try match goal with
       | Hk : pendingGetUserMedia (host ?w) !! _ = Some _,
         Hi : (recorders (host ?w) ++ [_]) !! _ = Some _ |- _ =>
           apply lookup_snoc_Some in Hi as [[_ Hi] | [_ <-]];
             [pose proof (sessions_pending_inactive w _ _ _ _ Hone Hk Hi) as Hina;
              rewrite (recording_isActive _ Hstate) in Hina; discriminate Hina
             |cbn in Hstate; discriminate Hstate]
       | Hk : pendingGetUserMedia (host ?w) !! _ = Some _,
         Hi : recorders (host ?w) !! _ = Some _ |- _ =>
           pose proof (sessions_pending_inactive w _ _ _ _ Hone Hk Hi) as Hina;
           rewrite (recording_isActive _ Hstate) in Hina; discriminate Hina
       | Hi : alter _ ?n (recorders (host ?w)) !! ?i = Some ?r |- _ =>
           rewrite list_lookup_alter in Hi; case_decide;
             [subst i; destruct (recorders (host w) !! n) as [r0|] eqn:Hr0;
                [injection Hi as <-; cbn in Hstate; discriminate Hstate
                |discriminate Hi]
             |]
       end.
  all: try (exact (HJ eq_refl i r Hi Hstate)).
  all: try (exact (HJ Hidle i r Hi Hstate)).
  all: try (destruct (Hown i r Hi (recording_isActive _ Hstate)) as [_ Href];
            specialize (Href Hstate); congruence).
Qed.

(** X13: when the button is used with one session at a time, the component
    shows that it is idle only when no recorder is recording: every way
    the recording flag is cleared (the click, the countdown's end, the
    [catch] of a failed start) leaves the recorders stopping or
    inactive. *)
Theorem idle_means_not_capturing `{Platform} (p : VoiceRecorderProps) (w : World) :
  Disciplined p w → isRecording (hooks w) = false →
  ∀ i r, recorders (host w) !! i = Some r → mr_state r ≠ recording.
Proof.
  induction 1 as [|w ev Hdisc IH _].
  - intros _ i r Hi. cbn in Hi. rewrite lookup_nil in Hi. discriminate Hi.
  - destruct (handle_normal ev w) as [w1 Hh].
    rewrite (step_unfold _ _ _ Hh).
    destruct (commit_frame (scopeOf w) w1)
      as (_ & _ & -> & _ & _ & _ & _ & _ & _ & _ & -> & _).
    exact (idle_handle ev w w1 (Disciplined_sessions p w Hdisc)
             (Disciplined_ownsDevice p w Hdisc) IH Hh).
Qed.

Lemma idle_means_not_capturing_witness :
  let w := @run webmPlatform [click 1000; deviceGranted 0 noFault; click 2000]
             (@mount webmPlatform defaultProps) in
  isRecording (hooks w) = false ∧ mr_state <$> recorders (host w) = [stopping] ∧
  ∀ i r, recorders (host w) !! i = Some r → mr_state r ≠ recording.
Proof.
  intros w.
  assert (Hmount : @Disciplined webmPlatform defaultProps (@mount webmPlatform defaultProps))
    by apply (@disc_mount webmPlatform).
  assert (Hdisc : @Disciplined webmPlatform defaultProps w).
  { unfold w, run. cbn [foldl].
    apply (@disc_step webmPlatform); [|intros _; left; vm_compute; reflexivity].
    apply (@disc_step webmPlatform); [|intros [=]].
    apply (@disc_step webmPlatform); [exact Hmount|].
    intros _. right. split; [reflexivity | constructor]. }
  assert (Hidle : isRecording (hooks w) = false) by (vm_compute; reflexivity).
  split; [exact Hidle|]. split; [vm_compute; reflexivity|].
  exact (@idle_means_not_capturing webmPlatform defaultProps w Hdisc Hidle).
Defined.

(** ** New props while mounted *)

(** X14: new props from the parent do not disturb a session: nothing is handed
    over, the recording flag, the error, the recorders, the streams and
    the pending requests stay as they are.  While recording, the countdown
    is the one interval of 100 ms and works with the new [duration]; the
    start time is kept, so the time already elapsed counts against it. *)
Theorem rerender_keeps_session `{Platform} (p p' : VoiceRecorderProps) (w : World) :
  Reachable p w →
  let w' := step (rerender p') w in
  props w' = p' ∧ delivered w' = delivered w ∧
  isRecording (hooks w') = isRecording (hooks w) ∧
  error (hooks w') = error (hooks w) ∧
  mediaRecorderRef (refs w') = mediaRecorderRef (refs w) ∧
  audioChunksRef (refs w') = audioChunksRef (refs w) ∧
  streamRef (refs w') = streamRef (refs w) ∧
  startTimeRef (refs w') = startTimeRef (refs w) ∧
  recorders (host w') = recorders (host w) ∧
  streams (host w') = streams (host w) ∧
  pendingGetUserMedia (host w') = pendingGetUserMedia (host w) ∧
  (isRecording (hooks w) = true →
     ∃ id sc, intervals (host w') = [(id, (100, sc))] ∧
              timerRef (refs w') = Some id ∧
              sc_duration sc = default 60 (duration p')) ∧
  (isRecording (hooks w) = false → intervals (host w') = []).
Proof.
  intros Hreach w'.
  pose proof (TimerInv_step (rerender p') w (TimerInv_reachable p w Hreach)) as Htimer.
  fold w' in Htimer.
  assert (Hh : handle (rerender p') w = (Normal (), withProps p' w)) by reflexivity.
  assert (Hw' : w' = exec (commit (scopeOf w)) (withProps p' w))
    by (apply step_unfold; exact Hh).
  destruct (commit_frame (scopeOf w) (withProps p' w))
    as (Hp & Hd & Hr & He & _ & _ & Hm & Hc & Hs & Ht & Hrs & Hst & _ & Hpe).
  rewrite <- Hw' in Hp, Hd, Hr, He, Hm, Hc, Hs, Ht, Hrs, Hst, Hpe. cbn in *.
  repeat match goal with |- _ ∧ _ => split end; try assumption.
  - intros Hrec. rewrite <- Hr in Hrec.
    destruct (inv_counting _ Htimer Hrec) as (id & sc & Hin & Hti & _ & Hsd).
    exists id, sc. split; [exact Hin|]. split; [exact Hti|].
    rewrite Hsd. cbn. rewrite Hp. reflexivity.
  - intros Hrec. rewrite <- Hr in Hrec. exact (inv_idle _ Htimer Hrec).
Qed.

Lemma rerender_keeps_session_witness :
  let w := @run webmPlatform [click 1000; deviceGranted 0 noFault]
             (@mount webmPlatform defaultProps) in
  let p' := {| onDataRecorded := true; duration := Some 5; compressionLevel := None |} in
  let w' := @step webmPlatform (rerender p') w in
  isRecording (hooks w') = true ∧
  intervals (host w') = [(2%nat, (100, scopeOf w'))] ∧
  sc_duration (scopeOf w') = 5.
Proof.
  intros w p' w'.
  assert (Hreach : @Reachable webmPlatform defaultProps w).
  { unfold w, run. cbn [foldl].
    do 2 apply (@reach_step webmPlatform). apply (@reach_mount webmPlatform). }
  destruct (@rerender_keeps_session webmPlatform defaultProps p' w Hreach)
    as (_ & _ & Hr & _).
  split; [etransitivity; [exact Hr | vm_compute; reflexivity]|].
  split; vm_compute; reflexivity.
Defined.

(** ** The device of a recorder that stops *)

Lemma onstop_streams (h : Handlers) (w : World) :
  streams (host (exec (onstop h) w)) =
    match streamRef (refs w) with
    | Some s => <[s := false]> (streams (host w))
    | None => streams (host w)
    end.
Proof. unfold_m. case_m; reflexivity. Qed.

(** X15: when the button is used with one session at a time, the [stop] event
    of a running recorder releases that recorder's own stream, with or
    without chunks and with or without a callback; and the recorder is
    inactive afterwards. *)
Theorem stop_releases_device `{Platform} (p : VoiceRecorderProps) (w : World)
    (mr : nat) (r : MediaRecorder) :
  Disciplined p w →
  recorders (host w) !! mr = Some r → mr_state r ≠ inactive →
  let w' := step (stopped mr) w in
  streams (host w') !! mr_stream r = Some false ∧
  recorders (host w') !! mr = Some (mr_withState inactive r) ∧
  (∀ s, s ≠ mr_stream r → streams (host w') !! s = streams (host w) !! s).
Proof.
  intros Hdisc Hr Hs w'. subst w'.
  pose proof (Disciplined_Reachable p w Hdisc) as Hreach.
  pose proof (ClosureInv_reachable p w Hreach) as Hinv.
  destruct (started_has_handlers w mr r Hinv Hr Hs) as [h Hh].
  destruct (Disciplined_ownsDevice p w Hdisc mr r Hr (isActive_started r Hs)) as [Hown _].
  destruct (inv_stream _ Hinv) as (s & Hsr & Hlt).
  { intros Hnil. rewrite Hnil, lookup_nil in Hr. discriminate Hr. }
  rewrite (step_stopped w mr r h Hr Hs Hh).
  destruct (commit_frame (scopeOf w)
              (exec (onstop h) (withHost (host_recorders (alter (mr_withState inactive) mr)) w)))
    as (_ & _ & _ & _ & _ & _ & _ & _ & _ & _ & -> & -> & _).
  rewrite onstop_streams. cbn. rewrite Hown.
  split; [|split].
  - apply list_lookup_insert_eq. congruence.
  - assert (Hrs : recorders (host (exec (onstop h)
              (withHost (host_recorders (alter (mr_withState inactive) mr)) w))) =
            alter (mr_withState inactive) mr (recorders (host w)))
      by (unfold_m; case_m; reflexivity).
    rewrite Hrs, list_lookup_alter, Hr. cbn. case_decide; [reflexivity | contradiction].
  - intros s' Hne. apply list_lookup_insert_ne. congruence.
Qed.

Lemma stop_releases_device_witness :
  let w := @run webmPlatform [click 1000; deviceGranted 0 noFault; click 2000]
             (@mount webmPlatform defaultProps) in
  streams (host w) = [true] ∧
  streams (host (@step webmPlatform (stopped 0) w)) !! 0%nat = Some false.
Proof.
  intros w.
  assert (Hmount : @Disciplined webmPlatform defaultProps (@mount webmPlatform defaultProps))
    by apply (@disc_mount webmPlatform).
  assert (Hdisc : @Disciplined webmPlatform defaultProps w).
  { unfold w, run. cbn [foldl].
    apply (@disc_step webmPlatform); [|intros _; left; vm_compute; reflexivity].
    apply (@disc_step webmPlatform); [|intros [=]].
    apply (@disc_step webmPlatform); [exact Hmount|].
    intros _. right. split; [reflexivity | constructor]. }
  split; [vm_compute; reflexivity|].
  exact (proj1 (@stop_releases_device webmPlatform defaultProps w 0%nat
                  {| mr_state := stopping; mr_stream := 0;
                     mr_options := {| opt_mimeType := "audio/webm";
                                      opt_audioBitsPerSecond := Some 64000 |};
                     mr_handlers :=
                       Some {| h_scope := scopeOf (@mount webmPlatform defaultProps);
                               h_mimeType := "audio/webm" |} |}
                  Hdisc ltac:(vm_compute; reflexivity) ltac:(discriminate))).
Defined.

(** ** The remaining time while idle *)

Lemma idle_remaining_handle `{Platform} (ev : Event) (w w1 : World) :
  TimerInv w →
  (isRecording (hooks w) = false →
   remainingTime (hooks w) = default 60 (duration (props w))) →
  handle ev w = (Normal (), w1) →
  isRecording (hooks w1) = false →
  isRecording (hooks w) = false ∧ sc_duration (scopeOf w1) = sc_duration (scopeOf w) →
  remainingTime (hooks w1) = default 60 (duration (props w1)).
Proof.
  intros Hinv HJ.
  destruct ev; unfold handle; unfold_m; case_m; intros [= <-]; cbn;
    intros Hidle [Hwas Hdur]; try discriminate; try reflexivity;
    try (exact (HJ eq_refl));
    try (exact (HJ Hwas)); try (rewrite Hdur; exact (HJ Hwas)).
  all: match goal with
       | Hf : list_find _ (intervals (host ?w)) = Some _ |- _ =>
           rewrite (inv_idle _ Hinv Hwas) in Hf; discriminate Hf
       end.
Qed.

(** The render after an event, when a dependency of the effects changed
    and the component is idle: the reset effect writes the duration. *)
Lemma commit_idle_remaining (before : Scope) (w : World) :
  isRecording (hooks w) = false → sameDeps before (scopeOf w) = false →
  remainingTime (hooks (exec (commit before) w)) = default 60 (duration (props w)).
Proof.
  intros Hidle Hdeps. unfold commit, timerCleanup, timerEffect, resetEffect.
  unfold_m. cbn. rewrite Hdeps. cbn. rewrite Hidle. cbn.
  destruct (timerRef (refs w)); reflexivity.
Qed.

(** X16: while the component is idle its remaining time is the whole
    [duration] (60 when the prop is left out): at mount, after a stop by
    click or by the countdown, after a failed start, and when the parent
    changes the [duration]. *)
Theorem idle_remaining_is_duration `{Platform} (p : VoiceRecorderProps) (w : World) :
  Reachable p w → isRecording (hooks w) = false →
  remainingTime (hooks w) = default 60 (duration (props w)).
Proof.
  induction 1 as [|w ev Hreach IH]; [reflexivity|].
  destruct (handle_normal ev w) as [w1 Hh].
  rewrite (step_unfold _ _ _ Hh).
  destruct (commit_frame (scopeOf w) w1) as (Hp & _ & Hr & _).
  rewrite Hr, Hp. intros Hidle.
  destruct (sameDeps (scopeOf w) (scopeOf w1)) eqn:Hdeps.
  - apply andb_prop in Hdeps as [Hflag Hdur].
    apply Bool.eqb_prop in Hflag. apply Z.eqb_eq in Hdur. cbn in Hflag, Hdur.
    rewrite commit_same by (cbn; congruence).
    apply (idle_remaining_handle ev w w1 (TimerInv_reachable p w Hreach) IH Hh Hidle).
    split; [congruence | cbn; congruence].
  - exact (commit_idle_remaining (scopeOf w) w1 Hidle Hdeps).
Qed.

Lemma idle_remaining_is_duration_witness :
  let p' := {| onDataRecorded := true; duration := Some 5; compressionLevel := None |} in
  let w := @run webmPlatform
             [click 1000; deviceGranted 0 noFault; tick 1 3000; rerender p'; click 4000]
             (@mount webmPlatform defaultProps) in
  isRecording (hooks w) = false ∧ remainingTime (hooks w) = 5.
Proof.
  intros p' w.
  assert (Hreach : @Reachable webmPlatform defaultProps w).
  { unfold w, run. cbn [foldl].
    do 5 apply (@reach_step webmPlatform). apply (@reach_mount webmPlatform). }
  assert (Hidle : isRecording (hooks w) = false) by (vm_compute; reflexivity).
  split; [exact Hidle|].
  etransitivity;
    [exact (@idle_remaining_is_duration webmPlatform defaultProps w Hreach Hidle)
    |vm_compute; reflexivity].
Defined.
